(** * deconf: the keyword-parameter resolver of [Deconfigurable]

    A shallow embedding of [deconf.py]: the [parameter] decorator (the
    closure [wrapper] it builds around a handler [f]), the methods
    [__init__], [_get_param_methods] and [_process_param] of
    [Deconfigurable], and [load_config] (with the paths of [posixpath];
    the file system and [imp.load_source] are parameters).

    Conventions of the embedding.
    - Python values are the inductive [value]; [isinstance] and truthiness
      are written out for the builtin types the handlers use
      ([bool] is a subclass of [int], as in Python).
    - [self] is the record [store]: the dict [self._param_vals], the
      attributes that [setattr(self, param, ...)] creates, and a ghost log
      [calls] of the handlers [f] invoked, in order.  Parameter names are
      taken to differ from the object's own attribute names
      ([_param_methods], [_param_vals] and the method names).
    - [self._param_methods] is a Python dict, iterated by [.items()]: it is
      an insertion-ordered association list with unique keys ([dict_set]
      overwrites in place).  [dir(self)] lists attribute names in sorted
      order, so a class is the list of its decorated methods in the order of
      their method names.  (An interpreter whose dicts are hashed yields the
      same keys in another fixed order: that of the class listed in that
      order.  The universal statements below hold for every list.)
    - [chain] is ONE Python list shared by a top-level [_process_param] call
      and all its recursive calls ([chain=chain] passes the same object and
      [chain.append] mutates it); the content of that list is threaded
      through the calls: each call returns the content it leaves behind and
      the caller goes on with it.
    - An exception aborts the computation and carries the store at the
      moment it is raised.  The handler [f] reads the attributes of [self]
      and either returns a value ([VNone] for a body that is [pass]) or
      raises; it modifies neither [self] nor its argument in place.
      Whatever the body of a handler raises, of whatever class (also one of
      the exception classes of this module, raised by the body itself), is
      [HandlerError]: the other constructors of [exn] are the [raise]
      statements of [_process_param] and [wrapper] and the call of [None]
      at line 162.
    - Recursion of [_process_param] is by fuel (the depth of the Python
      call stack); [fuel_enough] shows that [__init__] never runs out and
      [fuel_irrelevant] that more fuel gives the same result. *)

From stdpp Require Import base gmap strings list.
From Stdlib Require Import ZArith Lia Ascii.

Set Warnings "-register-all".

Open Scope string_scope.
Open Scope Z_scope.
Open Scope list_scope.

(** ** Python values *)

Inductive value : Type :=
| VNone
| VBool (b : bool)
| VInt (z : Z)
| VStr (s : string)
| VList (l : list value).

(** The classes given to [ensure_type]. *)
Inductive pytype : Type := TBool | TInt | TStr | TList.

(** [isinstance(val, ty)]: [bool] is a subclass of [int]. *)
Definition isinstance (val : value) (ty : pytype) : bool :=
  match val, ty with
  | VBool _, TBool => true
  | VBool _, TInt => true
  | VInt _, TInt => true
  | VStr _, TStr => true
  | VList _, TList => true
  | _, _ => false
  end.

(** Python truthiness: [None], [False], [0], [''] and [[]] are falsy. *)
Definition truthy (v : value) : bool :=
  match v with
  | VNone => false
  | VBool b => b
  | VInt z => negb (z =? 0)
  | VStr s => negb (String.eqb s "")
  | VList l => match l with [] => false | _ :: _ => true end
  end.

(** [a or b] *)
Definition py_or (a b : value) : value := if truthy a then a else b.

(** ** Exceptions and outcomes *)

Inductive exn : Type :=
| RequiredParameterError (cls param : string)
| CyclicalDependencyError (root : string)
| ParameterTypeError (param : string) (ty : pytype)
| TypeError_NoneType_not_callable
| IndexError
| HandlerError (msg : string).

(** What a handler body [f(self, val)] does: return or raise. *)
Inductive fresult : Type :=
| Return (v : value)
| Throw (msg : string).

Record store : Type := mkStore {
  _param_vals : gmap string value;
  attrs : gmap string value;
  calls : list string
}.

Inductive outcome (A : Type) : Type :=
| Ok (a : A) (s : store)
| Raise (e : exn) (s : store)
| Diverge.
Arguments Ok {A} a s.
Arguments Raise {A} e s.
Arguments Diverge {A}.

Definition M (A : Type) : Type := store -> outcome A.

Definition ret {A} (a : A) : M A := fun s => Ok a s.
Definition raise {A} (e : exn) : M A := fun s => Raise e s.
Definition bind {A B} (m : M A) (k : A -> M B) : M B :=
  fun s => match m s with
           | Ok a s' => k a s'
           | Raise e s' => Raise e s'
           | Diverge => Diverge
           end.

Declare Scope py_scope.
Delimit Scope py_scope with py.
Notation "x <~ c1 ;; c2" := (bind c1 (fun x => c2))
  (at level 100, c1 at next level, right associativity) : py_scope.
Notation "c1 ;;; c2" := (bind c1 (fun _ => c2))
  (at level 100, right associativity) : py_scope.

(** ** Insertion-ordered dicts *)

Section Dict.
Context {V : Type}.

Fixpoint dict_set (k : string) (v : V) (d : list (string * V)) : list (string * V) :=
  match d with
  | [] => [(k, v)]
  | (k', v') :: d' =>
      if String.eqb k k' then (k, v) :: d' else (k', v') :: dict_set k v d'
  end.

Fixpoint dict_get (k : string) (d : list (string * V)) : option V :=
  match d with
  | [] => None
  | (k', v') :: d' => if String.eqb k k' then Some v' else dict_get k d'
  end.

Definition dict_keys (d : list (string * V)) : list string := map fst d.
End Dict.

(** ** The [parameter] decorator *)

(** The closure [wrapper] built by [parameter(param, depends_on,
    ensure_type, default)(f)]: its captured variables.  [default = None]
    stands for the sentinel [Undefined]. *)
Record handler : Type := mkHandler {
  param : string;
  depends_on : list string;
  ensure_type : option pytype;
  default : option value;
  f : gmap string value -> value -> fresult
}.

Section Resolver.
(** [self.__class__.__name__] *)
Variable cls_name : string.
(** [self._param_methods] *)
Variable _param_methods : list (string * handler).
Variable kwargs : gmap string value.

(** Lines 169-180 of [wrapper]: the raw value of the parameter. *)
Definition input_value (m : handler) : M value :=
  match kwargs !! param m with
  | Some val =>
      match ensure_type m with
      | Some ty =>
          if negb (isinstance val ty)
          then raise (ParameterTypeError (param m) ty)
          else ret val
      | None => ret val
      end
  | None =>
      match default m with
      | Some val => ret val
      | None => raise (RequiredParameterError cls_name (param m))
      end
  end.

(** [retval = f(self, val)] *)
Definition call_f (m : handler) (val : value) : M value :=
  fun s =>
    let s' := mkStore (_param_vals s) (attrs s) (calls s ++ [param m]) in
    match f m (attrs s) val with
    | Return retval => Ok retval s'
    | Throw msg => Raise (HandlerError msg) s'
    end.

(** [setattr(self, name, v)] *)
Definition setattr (name : string) (v : value) : M unit :=
  fun s => Ok tt (mkStore (_param_vals s) (<[name := v]> (attrs s)) (calls s)).

(** [wrapper(self, kwargs)]; it has no [return], so it yields [None]. *)
Definition wrapper (m : handler) : M value :=
  (val <~ input_value m ;;
   retval <~ call_f m val ;;
   setattr (param m) (py_or retval val) ;;;
   ret VNone)%py.

(** [method(kwargs)] where [method] may be [None]. *)
Definition call_method (method : option handler) : M value :=
  match method with
  | Some m => wrapper m
  | None => raise TypeError_NoneType_not_callable
  end.

(** [self._param_vals[name] = v] *)
Definition set_param_val (name : string) (v : value) : M unit :=
  fun s => Ok tt (mkStore (<[name := v]> (_param_vals s)) (attrs s) (calls s)).

(** [name not in self._param_vals] *)
Definition not_in_param_vals (name : string) : M bool :=
  fun s => Ok (bool_decide (_param_vals s !! name = None)) s.

(** [chain[0]] *)
Definition chain0 (chain : list string) : M string :=
  match chain with
  | c :: _ => ret c
  | [] => raise IndexError
  end.

(** The loop [for depname in deps] of [_process_param] (lines 146-160);
    [rec] is the recursive call [self._process_param(depname, dep_method,
    kwargs, chain=chain)], which returns the content of [chain] after the
    call. *)
Fixpoint for_deps (rec : string -> option handler -> list string -> M (list string))
    (deps : list string) (chain : list string) : M (list string) :=
  match deps with
  | [] => ret chain
  | depname :: deps' =>
      if bool_decide (depname ∈ chain)
      then (root <~ chain0 chain ;; raise (CyclicalDependencyError root))%py
      else
        let dep_method := dict_get depname _param_methods in
        (fresh <~ not_in_param_vals depname ;;
         chain' <~ (if fresh : bool then rec depname dep_method chain else ret chain) ;;
         failed <~ not_in_param_vals depname ;;
         if failed : bool
         then raise (RequiredParameterError cls_name depname)
         else for_deps rec deps' chain')%py
  end.

(** [getattr(method, '__dependencies__', [])] *)
Definition dependencies_of (method : option handler) : list string :=
  match method with
  | Some m => depends_on m
  | None => []
  end.

(** [_process_param(self, param, method, kwargs, chain)] *)
Fixpoint _process_param (fuel : nat) (param : string) (method : option handler)
    (chain : option (list string)) : M (list string) :=
  match fuel with
  | O => fun _ => Diverge
  | S fuel' =>
      let chain := match chain with None => [] | Some c => c end in
      let chain := chain ++ [param] in
      let deps := dependencies_of method in
      (chain' <~ for_deps (fun d dm c => _process_param fuel' d dm (Some c)) deps chain ;;
       r <~ call_method method ;;
       set_param_val param r ;;;
       ret chain')%py
  end.

(** The loop of [__init__] over [self._param_methods.items()]. *)
Fixpoint for_items (fuel : nat) (items : list (string * handler)) : M unit :=
  match items with
  | [] => ret tt
  | (param, method) :: items' =>
      (_process_param fuel param (Some method) None ;;;
       for_items fuel items')%py
  end.
End Resolver.

(** [_get_param_methods]: [dir(self)] in order, keyed by [__param__]. *)
Definition _get_param_methods (cls : list handler) : list (string * handler) :=
  fold_left (fun methods attr => dict_set (param attr) attr methods) cls [].

(** The store when the loop of [__init__] starts. *)
Definition new_store : store := mkStore ∅ ∅ [].

(** [Deconfigurable.__init__(self, **kwargs)] for the class called
    [cls_name] whose decorated methods are [cls]. *)
Definition __init__ (cls_name : string) (cls : list handler)
    (kwargs : gmap string value) : outcome unit :=
  let methods := _get_param_methods cls in
  for_items cls_name methods kwargs (S (length methods)) methods new_store.

(** ** The examples of the documentation *)

Module Examples.
(** A handler whose body is [pass]. *)
Definition f_pass : gmap string value -> value -> fresult :=
  fun _ _ => Return VNone.

(** [if self.age < 18: value = False] then [return value]. *)
Definition f_vote : gmap string value -> value -> fresult :=
  fun self value =>
    match self !! "age" with
    | Some (VInt age) => if age <? 18 then Return (VBool false) else Return value
    | Some (VBool age) =>
        if (if age then 1 else 0) <? 18 then Return (VBool false) else Return value
    | Some _ => Throw "TypeError"
    | None => Throw "AttributeError"
    end.

Definition first_name : handler := mkHandler "first_name" [] (Some TStr) None f_pass.
Definition age : handler := mkHandler "age" [] (Some TInt) None f_pass.
Definition can_vote : handler := mkHandler "can_vote" ["age"] (Some TBool) None f_vote.

Definition kid : gmap string value :=
  <["first_name" := VStr "Kid"]> (<["age" := VInt 12]> (<["can_vote" := VBool true]> ∅)).

(** The diamond [a -> b], [a -> c], [b -> d], [c -> d]: [b] and [c] depend
    on [a], and [d] on both. *)
Definition a : handler := mkHandler "a" [] None None f_pass.
Definition b : handler := mkHandler "b" ["a"] None None f_pass.
Definition c : handler := mkHandler "c" ["a"] None None f_pass.
Definition d : handler := mkHandler "d" ["b"; "c"] None None f_pass.
Definition abcd : gmap string value :=
  <["a" := VInt 1]> (<["b" := VInt 2]> (<["c" := VInt 3]> (<["d" := VInt 4]> ∅))).

(** The same diamond named from the top: [a] depends on [b] and [c], which
    depend on [d]. *)
Definition top_a : handler := mkHandler "a" ["b"; "c"] None None f_pass.
Definition left_b : handler := mkHandler "b" ["d"] None None f_pass.
Definition right_c : handler := mkHandler "c" ["d"] None None f_pass.
Definition root_d : handler := mkHandler "d" [] None None f_pass.

(** [a] depends on [b]. *)
Definition a_needs_b : handler := mkHandler "a" ["b"] None None f_pass.
Definition plain_b : handler := mkHandler "b" [] None None f_pass.

(** [b] and [c] depend on each other. *)
Definition b_needs_c : handler := mkHandler "b" ["c"] None None f_pass.
Definition c_needs_b : handler := mkHandler "c" ["b"] None None f_pass.

(** [a] and [b] depend on each other, and [a] first on [q], which nobody
    declares. *)
Definition a_needs_q_b : handler := mkHandler "a" ["q"; "b"] None None f_pass.
Definition b_needs_a : handler := mkHandler "b" ["a"] None None f_pass.

(** A parameter that depends on a name nobody declares. *)
Definition p_needs_q : handler := mkHandler "p" ["q"] None None f_pass.

(** A required parameter that must be an [int]. *)
Definition typed_a : handler := mkHandler "a" [] (Some TInt) None f_pass.

(** A required [a] without constraint, and a required [b] that must be an
    [int]. *)
Definition plain_a : handler := mkHandler "a" [] None None f_pass.
Definition typed_b : handler := mkHandler "b" [] (Some TInt) None f_pass.

(** A server: [host] is required; [port] must be an [int], defaults to
    [80] and depends on [host]. *)
Definition host : handler := mkHandler "host" [] None None f_pass.
Definition port : handler := mkHandler "port" ["host"] (Some TInt) (Some (VInt 80)) f_pass.
End Examples.

(** How often the handler of [p] ran. *)
Definition count_calls (p : string) (s : store) : nat :=
  length (filter (fun q => String.eqb p q = true) (calls s)).

(** [p] is declared by the class, with handler [m]. *)
Definition declares (cls : list handler) (p : string) (m : handler) : Prop :=
  dict_get p (_get_param_methods cls) = Some m.

(** Every handler of a dict is stored under its own parameter name. *)
Definition well_keyed (d : list (string * handler)) : Prop :=
  forall k m, (k, m) ∈ d -> param m = k.

(** The declared names that are not on the chain yet: the measure that
    bounds the depth of the recursion. *)
Definition remaining (d : list (string * handler)) (chain : list string) : nat :=
  length (filter (fun k => k ∉ chain) (dict_keys d)).

(** The content of the list [chain] once the default [None] is replaced. *)
Definition chain_arg (chain : option (list string)) : list string :=
  match chain with None => [] | Some c => c end.

(** The store a construction ends with, returned or raised. *)
Definition final_store {A} (o : outcome A) : option store :=
  match o with
  | Ok _ s => Some s
  | Raise _ s => Some s
  | Diverge => None
  end.

(** Neither [a] nor [b] has an entry in [_param_vals], and the handler of
    neither has run. *)
Definition untouched (a b : string) (s : store) : Prop :=
  _param_vals s !! a = None /\ _param_vals s !! b = None /\
  (a ∉ calls s) /\ (b ∉ calls s).

(** If [e] reports a cycle, it names [chain[0]]. *)
Definition cyclical_root_is (chain : list string) (e : exn) : Prop :=
  forall r, e = CyclicalDependencyError r -> head chain = Some r.

(** The store after [wrapper] ran the handler of [m] on [val] and got [retval]. *)
Definition stored (m : handler) (val retval : value) (s : store) : store :=
  mkStore (_param_vals s) (<[param m := py_or retval val]> (attrs s)) (calls s ++ [param m]).

(** ** [load_config] *)

(** [s.rfind(c)]: the index of the last [c] in [s], or [-1]. *)
Fixpoint rfind (c : Ascii.ascii) (s : string) : Z :=
  match s with
  | EmptyString => -1
  | String a rest =>
      let i := rfind c rest in
      if i =? -1 then (if Ascii.eqb a c then 0 else -1) else i + 1
  end.

(** [s[n:]] for [n >= 0] *)
Fixpoint drop_chars (n : nat) (s : string) : string :=
  match n, s with
  | O, _ => s
  | S n', String _ rest => drop_chars n' rest
  | S _, EmptyString => EmptyString
  end.

(** [os.path.basename(p)] of [posixpath]: [i = p.rfind('/') + 1] and
    [p[i:]]. *)
Definition basename (p : string) : string :=
  let i := rfind "/"%char p + 1 in
  drop_chars (Z.to_nat i) p.

(** [s.split(sep)] for a separator of one character. *)
Fixpoint split (sep : Ascii.ascii) (s : string) : list string :=
  match s with
  | EmptyString => [EmptyString]
  | String a rest =>
      if Ascii.eqb a sep then EmptyString :: split sep rest
      else match split sep rest with
           | part :: parts => String a part :: parts
           | [] => [String a EmptyString]
           end
  end.

(** [c in s] *)
Fixpoint has_char (c : Ascii.ascii) (s : string) : bool :=
  match s with
  | EmptyString => false
  | String a rest => Ascii.eqb a c || has_char c rest
  end.

(** What [load_config] uses of the file system and of [imp]. *)
Record filesystem (Mod : Type) : Type := mkFs {
  abspath : string -> string;
  path_exists : string -> bool;
  load_source : string -> string -> Mod
}.
Arguments abspath {Mod} _ _.
Arguments path_exists {Mod} _ _.
Arguments load_source {Mod} _ _ _.

(** The module name [load_config] computes: [parts[0]]. *)
Definition modname_of (filename : string) : exn + string :=
  let basename := basename filename in
  let parts := split "."%char basename in
  match parts with
  | modname :: _ => inr modname
  | [] => inl IndexError
  end.

(** [load_config(filename)]; [inr None] is the [None] of falling off the
    end of the function. *)
Definition load_config {Mod : Type} (fs : filesystem Mod) (filename : string)
    : exn + option Mod :=
  match modname_of filename with
  | inl e => inl e
  | inr modname =>
      let path := abspath fs filename in
      if path_exists fs path then inr (Some (load_source fs modname path))
      else inr None
  end.

(** ** Properties of a construction *)

(** What the resolver keeps true of [self]: a name with an entry in
    [_param_vals] is an attribute, an attribute was set by a handler that
    ran, the handlers that ran are declared, and the entries of
    [_param_vals] are all [None]. *)
Definition consistent (methods : list (string * handler)) (s : store) : Prop :=
  (forall k, is_Some (_param_vals s !! k) -> is_Some (attrs s !! k)) /\
  (forall k, is_Some (attrs s !! k) -> k ∈ calls s) /\
  (forall k, k ∈ calls s -> k ∈ dict_keys methods) /\
  (forall k v, _param_vals s !! k = Some v -> v = VNone).

(** From [s] to [s'] nothing is lost: entries and attributes stay, and
    the log of handlers is extended. *)
Definition grows (s s' : store) : Prop :=
  (forall k, is_Some (_param_vals s !! k) -> is_Some (_param_vals s' !! k)) /\
  (forall k, is_Some (attrs s !! k) -> is_Some (attrs s' !! k)) /\
  calls s `prefix_of` calls s'.

(** Every dependency of [m] is an attribute of [self]. *)
Definition deps_present (m : handler) (self : gmap string value) : bool :=
  forallb (fun d => bool_decide (is_Some (self !! d))) (depends_on m).

(** The handler [m] with a body that first looks for the attributes of
    its dependencies. *)
Definition guard (m : handler) : handler :=
  mkHandler (param m) (depends_on m) (ensure_type m) (default m)
    (fun self val => if deps_present m self then f m self val else Throw "AttributeError").

(** The handlers come with distinct names, each after its dependencies. *)
Fixpoint dependency_ordered (seen : list string) (cls : list handler) : bool :=
  match cls with
  | [] => true
  | m :: rest =>
      bool_decide (param m ∉ seen) &&
      forallb (fun d => bool_decide (d ∈ seen)) (depends_on m) &&
      dependency_ordered (seen ++ [param m]) rest
  end.

(** The declared parameter [q] depends on [d], which has no handler. *)
Definition dangling (methods : list (string * handler)) (q d : string) : Prop :=
  exists m, dict_get q methods = Some m /\ d ∈ depends_on m /\ dict_get d methods = None.

(** [e] is what the [wrapper] of a handler of the dict raised. *)
Definition raised_by_handler (cls_name : string) (methods : list (string * handler))
    (kwargs : gmap string value) (e : exn) : Prop :=
  exists q m s1 s2, dict_get q methods = Some m /\ wrapper cls_name kwargs m s1 = Raise e s2.

(** Where an exception of the resolver comes from: a dependency met twice
    on the chain, a dependency without handler, or a handler. *)
Definition failure_cause (cls_name : string) (methods : list (string * handler))
    (kwargs : gmap string value) (e : exn) : Prop :=
  (exists r, e = CyclicalDependencyError r) \/
  (e = TypeError_NoneType_not_callable /\ exists q d, dangling methods q d) \/
  raised_by_handler cls_name methods kwargs e.

(** ** Reasoning rules for outcomes *)

Definition wp {A} (m : M A) (s : store)
    (Q : A -> store -> Prop) (E : exn -> store -> Prop) (D : Prop) : Prop :=
  match m s with
  | Ok a s' => Q a s'
  | Raise e s' => E e s'
  | Diverge => D
  end.

Lemma wp_ret {A} (a : A) s (Q : A -> store -> Prop) E D : Q a s -> wp (ret a) s Q E D.
Proof. done. Qed.

Lemma wp_raise {A} e s (Q : A -> store -> Prop) (E : exn -> store -> Prop) D :
  E e s -> wp (raise e) s Q E D.
Proof. done. Qed.

Lemma wp_bind {A B} (m : M A) (k : A -> M B) s Q E D :
  wp m s (fun a s' => wp (k a) s' Q E D) E D -> wp (bind m k) s Q E D.
Proof. unfold wp, bind. by destruct (m s). Qed.

Lemma wp_conseq {A} (m : M A) s (Q Q' : A -> store -> Prop) (E E' : exn -> store -> Prop)
    (D D' : Prop) :
  wp m s Q E D ->
  (forall a s', Q a s' -> Q' a s') ->
  (forall e s', E e s' -> E' e s') ->
  (D -> D') ->
  wp m s Q' E' D'.
Proof. unfold wp. destruct (m s); auto. Qed.

Lemma wp_and {A} (m : M A) s (Q1 Q2 : A -> store -> Prop) (E1 E2 : exn -> store -> Prop)
    (D1 D2 : Prop) :
  wp m s Q1 E1 D1 -> wp m s Q2 E2 D2 ->
  wp m s (fun a s' => Q1 a s' /\ Q2 a s') (fun e s' => E1 e s' /\ E2 e s') (D1 /\ D2).
Proof. unfold wp. destruct (m s); auto. Qed.

Lemma wp_ok {A} (m : M A) s a s' Q E D : wp m s Q E D -> m s = Ok a s' -> Q a s'.
Proof. unfold wp. intros H Heq. by rewrite Heq in H. Qed.

Lemma wp_err {A} (m : M A) s e s' (Q : A -> store -> Prop) E D :
  wp m s Q E D -> m s = Raise e s' -> E e s'.
Proof. unfold wp. intros H Heq. by rewrite Heq in H. Qed.

Lemma bind_ok {A B} (m : M A) (k : A -> M B) s b s2 :
  bind m k s = Ok b s2 <-> exists a s1, m s = Ok a s1 /\ k a s1 = Ok b s2.
Proof.
  unfold bind. destruct (m s) as [a s1|e s1|]; split;
    [by exists a, s1|intros (? & ? & [= <- <-] & ?)
    |done|intros (? & ? & ? & ?)|done|intros (? & ? & ? & ?)]; done.
Qed.

Lemma bind_ext {A B} (m1 m2 : M A) (k1 k2 : A -> M B) s :
  m1 s = m2 s -> (forall a s', k1 a s' = k2 a s') -> bind m1 k1 s = bind m2 k2 s.
Proof. unfold bind. intros -> Hk. by destruct (m2 s). Qed.

Lemma bind_ext_on {A B} (m1 m2 : M A) (k1 k2 : A -> M B) s :
  m1 s = m2 s -> (forall a s', m2 s = Ok a s' -> k1 a s' = k2 a s') ->
  bind m1 k1 s = bind m2 k2 s.
Proof. unfold bind. intros -> Hk. destruct (m2 s); auto. Qed.

(** ** Dicts *)

Section DictFacts.
Context {V : Type}.
Implicit Types (d : list (string * V)) (k : string) (v : V).

Lemma dict_get_set_eq k v d : dict_get k (dict_set k v d) = Some v.
Proof.
  induction d as [|[k' v'] d IH]; simpl.
  - by rewrite String.eqb_refl.
  - destruct (String.eqb k k') eqn:Hk; simpl; by rewrite ?Hk, ?String.eqb_refl.
Qed.

Lemma dict_get_set_ne k k' v d : k <> k' -> dict_get k' (dict_set k v d) = dict_get k' d.
Proof.
  intros Hne. induction d as [|[k1 v1] d IH]; simpl.
  - destruct (String.eqb_spec k' k); congruence.
  - destruct (String.eqb_spec k k1) as [->|Hk]; simpl.
    + destruct (String.eqb_spec k' k1); congruence.
    + by rewrite IH.
Qed.

Lemma dict_get_Some_elem k v d : dict_get k d = Some v -> (k, v) ∈ d.
Proof.
  induction d as [|[k1 v1] d IH]; simpl; [done|].
  destruct (String.eqb_spec k k1) as [->|Hk].
  - intros [= ->]. left.
  - intros H. right. by apply IH.
Qed.

Lemma dict_get_Some_key k v d : dict_get k d = Some v -> k ∈ dict_keys d.
Proof.
  intros H%dict_get_Some_elem. unfold dict_keys.
  apply list_elem_of_fmap. by exists (k, v).
Qed.

Lemma dict_set_keys_NoDup k v d : NoDup (dict_keys d) -> NoDup (dict_keys (dict_set k v d)).
Proof.
  unfold dict_keys. induction d as [|[k1 v1] d IH]; simpl.
  - intros _. apply NoDup_singleton.
  - intros [Hnin Hnd]%NoDup_cons.
    destruct (String.eqb_spec k k1) as [->|Hk]; simpl.
    + by apply NoDup_cons.
    + apply NoDup_cons. split; [|by apply IH].
      intros Hin. apply Hnin.
      clear -Hin Hk. induction d as [|[k2 v2] d IH]; simpl in *.
      * apply list_elem_of_singleton in Hin. congruence.
      * destruct (String.eqb_spec k k2) as [->|Hk2]; simpl in *.
        -- done.
        -- apply elem_of_cons in Hin as [->|Hin]; [left|right; by apply IH].
Qed.

Lemma dict_elem_get k v d : NoDup (dict_keys d) -> (k, v) ∈ d -> dict_get k d = Some v.
Proof.
  unfold dict_keys. induction d as [|[k1 v1] d IH]; simpl.
  - intros _ H. by apply elem_of_nil in H.
  - intros [Hnin Hnd]%NoDup_cons [[= -> ->]|Hin]%elem_of_cons.
    + by rewrite String.eqb_refl.
    + destruct (String.eqb_spec k k1) as [->|Hk]; [|by apply IH].
      exfalso. apply Hnin. apply list_elem_of_fmap. by exists (k1, v).
Qed.
End DictFacts.

(** ** The decorator's [wrapper] *)

Section WrapperFacts.
Variable cls_name : string.
Variable kwargs : gmap string value.
Implicit Types (m : handler) (s : store).

Lemma input_value_supplied m val s :
  kwargs !! param m = Some val ->
  input_value cls_name kwargs m s =
    match ensure_type m with
    | Some ty => if isinstance val ty then Ok val s
                 else Raise (ParameterTypeError (param m) ty) s
    | None => Ok val s
    end.
Proof.
  unfold input_value. intros ->. destruct (ensure_type m) as [ty|]; [|done].
  by destruct (isinstance val ty).
Qed.

Lemma input_value_omitted m s :
  kwargs !! param m = None ->
  input_value cls_name kwargs m s =
    match default m with
    | Some val => Ok val s
    | None => Raise (RequiredParameterError cls_name (param m)) s
    end.
Proof. unfold input_value. intros ->. by destruct (default m). Qed.

(** [input_value] reads the store and leaves it alone. *)
Lemma input_value_store m s :
  wp (input_value cls_name kwargs m) s (fun _ s' => s' = s) (fun _ s' => s' = s) False.
Proof.
  unfold wp, input_value.
  destruct (kwargs !! param m) as [val|]; [destruct (ensure_type m) as [ty|]|].
  - by destruct (isinstance val ty).
  - done.
  - by destruct (default m).
Qed.

Lemma wrapper_unfold m s :
  wrapper cls_name kwargs m s =
    match input_value cls_name kwargs m s with
    | Ok val s1 =>
        match f m (attrs s1) val with
        | Return retval => Ok VNone (stored m val retval s1)
        | Throw msg =>
            Raise (HandlerError msg)
              (mkStore (_param_vals s1) (attrs s1) (calls s1 ++ [param m]))
        end
    | Raise e s1 => Raise e s1
    | Diverge => Diverge
    end.
Proof.
  unfold wrapper, bind, call_f, setattr, ret, stored.
  destruct (input_value cls_name kwargs m s) as [val s1|e s1|]; [|done..].
  by destruct (f m (attrs s1) val).
Qed.

Lemma wrapper_required m s :
  kwargs !! param m = None -> default m = None ->
  wrapper cls_name kwargs m s = Raise (RequiredParameterError cls_name (param m)) s.
Proof.
  intros Hk Hd. rewrite wrapper_unfold, input_value_omitted by done. by rewrite Hd.
Qed.

Lemma wrapper_total m s : wrapper cls_name kwargs m s <> Diverge.
Proof.
  rewrite wrapper_unfold. pose proof (input_value_store m s) as H. unfold wp in H.
  destruct (input_value cls_name kwargs m s) as [val s1|e s1|]; [|done..].
  by destruct (f m (attrs s1) val).
Qed.
End WrapperFacts.

Lemma truthy_false_iff (v : value) :
  truthy v = false <->
  v = VNone \/ v = VBool false \/ v = VInt 0 \/ v = VStr "" \/ v = VList [].
Proof.
  split.
  - destruct v as [|[]|z|s|[|]]; simpl; try done; auto.
    + intros H%negb_false_iff%Z.eqb_eq. subst. auto.
    + intros H%negb_false_iff%String.eqb_eq. subst. auto 6.
  - by intros [->|[->|[->|[->| ->]]]].
Qed.

(** ** [_get_param_methods] *)

Lemma dict_set_well_keyed (m : handler) (d : list (string * handler)) :
  well_keyed d -> well_keyed (dict_set (param m) m d).
Proof.
  unfold well_keyed. induction d as [|[k1 m1] d IH]; simpl; intros Hd k m0 Hin.
  - apply list_elem_of_singleton in Hin. by injection Hin as -> ->.
  - destruct (String.eqb (param m) k1).
    + apply elem_of_cons in Hin as [[= -> ->]|Hin]; [done|].
      apply Hd. by right.
    + apply elem_of_cons in Hin as [[= -> ->]|Hin].
      * apply Hd. left.
      * apply IH; [|done]. intros k' m' H'. apply Hd. by right.
Qed.

Lemma _get_param_methods_spec (cls : list handler) :
  well_keyed (_get_param_methods cls) /\ NoDup (dict_keys (_get_param_methods cls)).
Proof.
  unfold _get_param_methods.
  cut (forall d : list (string * handler), well_keyed d /\ NoDup (dict_keys d) ->
        well_keyed (fold_left (fun methods attr => dict_set (param attr) attr methods) cls d) /\
        NoDup (dict_keys (fold_left (fun methods attr => dict_set (param attr) attr methods) cls d))).
  { intros H. apply H. split; [|apply NoDup_nil_2].
    intros k m Hin. by apply elem_of_nil in Hin. }
  induction cls as [|m cls IH]; simpl; [done|].
  intros d [Hk Hn]. apply IH. split.
  - by apply dict_set_well_keyed.
  - by apply dict_set_keys_NoDup.
Qed.

Lemma declares_param (cls : list handler) p m : declares cls p m -> param m = p.
Proof.
  unfold declares. intros H%dict_get_Some_elem.
  by apply (proj1 (_get_param_methods_spec cls)).
Qed.

(** ** The resolver *)

Section ResolverFacts.
Variable cls_name : string.
Variable methods : list (string * handler).
Variable kwargs : gmap string value.
Implicit Types (m : handler) (s : store).

Local Abbreviation pp := (_process_param cls_name methods kwargs).
Local Abbreviation deps_loop := (for_deps cls_name methods).

Lemma pp_unfold fuel p method chain :
  pp (S fuel) p method chain =
    (chain' <~ deps_loop (fun d dm c => pp fuel d dm (Some c))
                 (dependencies_of method) (chain_arg chain ++ [p]) ;;
     r <~ call_method cls_name kwargs method ;;
     set_param_val p r ;;;
     ret chain')%py.
Proof. by destruct chain. Qed.

Lemma call_method_total method s : call_method cls_name kwargs method s <> Diverge.
Proof. destruct method as [m|]; [apply wrapper_total|done]. Qed.

(** *** The chain only grows, and a cycle is reported against its head *)

Lemma for_deps_chain rec deps : forall (chain : list string) s,
  (forall d dm c s', wp (rec d dm c) s'
     (fun c' _ => (c ++ [d]) `prefix_of` c') (fun e _ => cyclical_root_is (c ++ [d]) e) True) ->
  chain <> [] ->
  wp (deps_loop rec deps chain) s
     (fun c' _ => chain `prefix_of` c') (fun e _ => cyclical_root_is chain e) True.
Proof.
  induction deps as [|d deps IH]; intros chain s Hrec Hne; simpl.
  - by apply wp_ret.
  - case_bool_decide as Hin.
    + destruct chain as [|c0 chain]; [done|]. simpl.
      apply wp_bind, wp_ret, wp_raise. by intros r [= ->].
    + apply wp_bind. unfold wp at 1, not_in_param_vals.
      apply wp_bind. destruct (bool_decide (_param_vals s !! d = None)).
      * eapply wp_conseq; [apply Hrec| |simpl|done].
        -- intros c' s' Hpre. apply wp_bind. unfold wp at 1, not_in_param_vals.
           destruct (bool_decide (_param_vals s' !! d = None)).
           ++ apply wp_raise. by intros r [=].
           ++ assert (chain `prefix_of` c') as Hpre'.
              { destruct Hpre as [k ->]. exists ([d] ++ k). by rewrite <-app_assoc. }
              eapply wp_conseq; [apply IH; [done|]| |simpl|done].
              ** destruct Hpre' as [k' Hk']. rewrite Hk'. by destruct chain.
              ** intros c'' s'' H. simpl in H. by etrans.
              ** intros e s'' H r Hr. specialize (H r Hr).
                 destruct Hpre' as [k ->]. by destruct chain.
        -- intros e s' H r Hr. specialize (H r Hr). by destruct chain.
      * apply wp_ret, wp_bind. unfold wp at 1, not_in_param_vals.
        destruct (bool_decide (_param_vals s !! d = None)).
        -- apply wp_raise. by intros r [=].
        -- by apply IH.
Qed.

Lemma call_method_not_cyclical method s :
  wp (call_method cls_name kwargs method) s (fun _ _ => True)
     (fun e _ => forall r, e <> CyclicalDependencyError r) False.
Proof.
  unfold wp. destruct method as [m|]; simpl; [|done].
  rewrite wrapper_unfold. pose proof (input_value_store cls_name kwargs m s) as H.
  unfold wp, input_value in *.
  destruct (kwargs !! param m) as [val|].
  - destruct (ensure_type m) as [ty|]; [destruct (isinstance val ty)|]; simpl;
      try done; by destruct (f m (attrs s) val).
  - destruct (default m) as [val|]; simpl; [|done]. by destruct (f m (attrs s) val).
Qed.

Lemma pp_chain fuel : forall p method chain s,
  wp (pp fuel p method chain) s
     (fun c' s' => (chain_arg chain ++ [p]) `prefix_of` c' /\ is_Some (_param_vals s' !! p))
     (fun e _ => cyclical_root_is (chain_arg chain ++ [p]) e) True.
Proof.
  induction fuel as [|fuel IH]; intros p method chain s; [done|].
  rewrite pp_unfold. apply wp_bind.
  eapply wp_conseq; [apply for_deps_chain| |done|done].
  - intros d dm c s'.
    eapply wp_conseq; [apply (IH d dm (Some c))|by intros ? ? [? ?]|done|done].
  - by destruct (chain_arg chain).
  - intros c' s' Hpre. simpl. apply wp_bind.
    eapply wp_conseq; [apply call_method_not_cyclical| |simpl|done].
    + intros r s1 Hr. apply wp_bind. unfold wp at 1, set_param_val.
      apply wp_ret. split; [done|]. simpl. rewrite lookup_insert_eq. by eexists.
    + intros e s1 H r Hr. by destruct (H r).
Qed.

(** The branch "failed dependency" (lines 157-160) is dead: a call that
    returns has stored an entry for its parameter. *)
Lemma pp_ok_param_vals fuel p method chain s c' s' :
  pp fuel p method chain s = Ok c' s' -> is_Some (_param_vals s' !! p).
Proof. intros H. by destruct (wp_ok _ _ _ _ _ _ _ (pp_chain fuel p method chain s) H). Qed.

(** A cycle is always reported against [chain[0]], the parameter of the
    top-level call. *)
Lemma pp_cyclical_root fuel p method s r s' :
  pp fuel p method None s = Raise (CyclicalDependencyError r) s' -> r = p.
Proof.
  intros H. pose proof (wp_err _ _ _ _ _ _ _ (pp_chain fuel p method None s) H r eq_refl).
  simpl in *. congruence.
Qed.
End ResolverFacts.

(** ** Termination: the fuel of [__init__] is enough *)

Lemma remaining_nil (d : list (string * handler)) : remaining d [] = length d.
Proof.
  unfold remaining, dict_keys. induction d as [|[k m] d IH]; [done|].
  cbn [map fst length]. rewrite filter_cons_True by apply not_elem_of_nil.
  cbn [length]. by rewrite IH.
Qed.

Lemma filter_notin_mono (l c c' : list string) :
  c ⊆ c' ->
  (length (filter (fun k => k ∉ c') l) <= length (filter (fun k => k ∉ c) l))%nat.
Proof.
  intros Hsub. induction l as [|k l IH]; [done|].
  rewrite !filter_cons. destruct (decide (k ∉ c')) as [Hc'|Hc'].
  - rewrite decide_True by (intros Hc; by apply Hc', Hsub). cbn [length]. lia.
  - destruct (decide (k ∉ c)); cbn [length]; lia.
Qed.

Lemma remaining_mono (d : list (string * handler)) (c c' : list string) :
  c ⊆ c' -> (remaining d c' <= remaining d c)%nat.
Proof. apply filter_notin_mono. Qed.

Lemma remaining_lt (d : list (string * handler)) (c : list string) (p : string) :
  p ∈ dict_keys d -> p ∉ c -> (remaining d (c ++ [p]) < remaining d c)%nat.
Proof.
  unfold remaining. intros Hin Hc. induction (dict_keys d) as [|k l IH].
  - by apply elem_of_nil in Hin.
  - assert (c ⊆ c ++ [p]) as Hsub by (intros z Hz; apply elem_of_app; by left).
    pose proof (filter_notin_mono l c (c ++ [p]) Hsub) as Hle.
    rewrite !filter_cons. apply elem_of_cons in Hin as [<-|Hin].
    + rewrite decide_False, decide_True
        by (try done; rewrite elem_of_app, list_elem_of_singleton; tauto).
      cbn [length]. lia.
    + specialize (IH Hin). destruct (decide (k ∉ c ++ [p])) as [Hk|Hk].
      * rewrite decide_True by (intros Hkc; apply Hk, elem_of_app; by left).
        cbn [length]. lia.
      * destruct (decide (k ∉ c)); cbn [length]; lia.
Qed.

Section Termination.
Variable cls_name : string.
Variable methods : list (string * handler).
Variable kwargs : gmap string value.

Local Abbreviation pp := (_process_param cls_name methods kwargs).
Local Abbreviation deps_loop := (for_deps cls_name methods).

Lemma for_deps_total rec deps fuel : forall (chain : list string) (s : store),
  (forall d c s', d ∉ c -> (remaining methods c < fuel)%nat ->
     wp (rec d (dict_get d methods) c) s'
        (fun c' _ => (c ++ [d]) `prefix_of` c') (fun _ _ => True) False) ->
  (remaining methods chain < fuel)%nat ->
  wp (deps_loop rec deps chain) s (fun _ _ => True) (fun _ _ => True) False.
Proof.
  induction deps as [|d deps IH]; intros chain s Hrec Hfuel; simpl; [done|].
  case_bool_decide as Hin.
  - destruct chain; simpl; by apply wp_bind.
  - apply wp_bind. unfold wp at 1, not_in_param_vals. apply wp_bind.
    destruct (bool_decide (_param_vals s !! d = None)).
    + eapply wp_conseq; [by apply Hrec| |done|done].
      intros c' s' Hpre. simpl in Hpre. apply wp_bind. unfold wp at 1, not_in_param_vals.
      destruct (bool_decide (_param_vals s' !! d = None)); [done|].
      apply IH; [done|]. eapply Nat.le_lt_trans; [|done].
      apply remaining_mono. intros z Hz. destruct Hpre as [k ->].
      rewrite <-app_assoc. apply elem_of_app. by left.
    + apply wp_ret, wp_bind. unfold wp at 1, not_in_param_vals.
      destruct (bool_decide (_param_vals s !! d = None)); [done|]. by apply IH.
Qed.

Lemma pp_total fuel : forall p chain s,
  p ∉ chain_arg chain -> (remaining methods (chain_arg chain) < fuel)%nat ->
  wp (pp fuel p (dict_get p methods) chain) s (fun _ _ => True) (fun _ _ => True) False.
Proof.
  induction fuel as [|fuel IH]; intros p chain s Hp Hfuel; [lia|].
  rewrite pp_unfold. apply wp_bind.
  assert (forall (c' : list string) s', wp
    (r <~ call_method cls_name kwargs (dict_get p methods);; set_param_val p r;;; ret c')%py
    s' (fun _ _ => True) (fun _ _ => True) False) as Hrest.
  { intros c' s'. apply wp_bind. unfold wp at 1.
    pose proof (call_method_total cls_name kwargs (dict_get p methods) s') as Hc.
    by destruct (call_method cls_name kwargs (dict_get p methods) s'). }
  destruct (dict_get p methods) as [m|] eqn:Hm; simpl.
  - eapply wp_conseq; [apply (for_deps_total _ _ fuel)| |done|done].
    + intros d c s' Hd Hc.
      eapply wp_conseq;
        [apply wp_and; [apply (IH d (Some c) s' Hd Hc)|apply pp_chain]| |done|].
      * by intros c' s'' [_ [H _]].
      * by intros [[] _].
    + apply dict_get_Some_key in Hm. pose proof (remaining_lt methods _ p Hm Hp). lia.
    + intros c' s' _. apply Hrest.
  - apply Hrest.
Qed.

Lemma for_items_total fuel items : forall s,
  (forall k m, (k, m) ∈ items -> dict_get k methods = Some m) ->
  (length methods < fuel)%nat ->
  wp (for_items cls_name methods kwargs fuel items) s (fun _ _ => True) (fun _ _ => True) False.
Proof.
  induction items as [|[k m] items IH]; intros s Hitems Hfuel; simpl; [done|].
  apply wp_bind. rewrite <-(Hitems k m) by left.
  eapply wp_conseq; [apply pp_total| |done|done].
  - apply not_elem_of_nil.
  - simpl. by rewrite remaining_nil.
  - intros c' s' _. apply IH; [|done]. intros k' m' Hin. apply Hitems. by right.
Qed.
End Termination.

(** [__init__] always returns or raises: the fuel it starts with is never
    used up. *)
Lemma fuel_enough (cls_name : string) (cls : list handler) (kwargs : gmap string value) :
  __init__ cls_name cls kwargs <> Diverge.
Proof.
  unfold __init__. destruct (_get_param_methods_spec cls) as [_ Hnd].
  pose proof (for_items_total cls_name (_get_param_methods cls) kwargs
    (S (length (_get_param_methods cls))) (_get_param_methods cls) new_store) as H.
  unfold wp in H. intros Heq. rewrite Heq in H. apply H; [|lia].
  intros k m Hin. by apply dict_elem_get.
Qed.

(** More fuel does not change a result. *)
Section FuelMonotone.
Variable cls_name : string.
Variable methods : list (string * handler).
Variable kwargs : gmap string value.

Lemma for_deps_fuel_mono rec1 rec2 deps : forall (chain : list string) (s : store),
  (forall d dm c s', rec1 d dm c s' <> Diverge -> rec2 d dm c s' = rec1 d dm c s') ->
  for_deps cls_name methods rec1 deps chain s <> Diverge ->
  for_deps cls_name methods rec2 deps chain s = for_deps cls_name methods rec1 deps chain s.
Proof.
  induction deps as [|d deps IH]; intros chain s Hrec; simpl; [done|].
  case_bool_decide; [done|]. unfold bind, not_in_param_vals.
  destruct (bool_decide (_param_vals s !! d = None)).
  - intros Hnd. rewrite Hrec by (by destruct (rec1 d (dict_get d methods) chain s)).
    destruct (rec1 d (dict_get d methods) chain s) as [c' s'| |]; [|done..].
    destruct (bool_decide (_param_vals s' !! d = None)); [done|]. by apply IH.
  - unfold ret. destruct (bool_decide (_param_vals s !! d = None)); [done|]. by apply IH.
Qed.

Lemma pp_fuel_mono fuel : forall fuel' p method chain s,
  (fuel <= fuel')%nat ->
  _process_param cls_name methods kwargs fuel p method chain s <> Diverge ->
  _process_param cls_name methods kwargs fuel' p method chain s =
  _process_param cls_name methods kwargs fuel p method chain s.
Proof.
  induction fuel as [|fuel IH]; intros fuel' p method chain s Hle; [done|].
  destruct fuel' as [|fuel']; [lia|]. rewrite !pp_unfold. intros Hnd.
  apply bind_ext; [|done]. apply for_deps_fuel_mono.
  - intros d dm c s'. apply IH. lia.
  - unfold bind in Hnd. by destruct (for_deps _ _ _ _ _ s).
Qed.

Lemma for_items_fuel_mono fuel fuel' items : forall s,
  (fuel <= fuel')%nat ->
  for_items cls_name methods kwargs fuel items s <> Diverge ->
  for_items cls_name methods kwargs fuel' items s =
  for_items cls_name methods kwargs fuel items s.
Proof.
  induction items as [|[k m] items IH]; intros s Hle; simpl; [done|].
  unfold bind. intros Hnd.
  rewrite (pp_fuel_mono fuel fuel')
    by (try done; by destruct (_process_param _ _ _ fuel _ _ _ s)).
  destruct (_process_param _ _ _ fuel _ _ _ s) as [c' s'| |]; [|done..]. by apply IH.
Qed.
End FuelMonotone.

(** Whatever larger call depth is allowed, [__init__] gives the same result. *)
Lemma fuel_irrelevant (cls_name : string) (cls : list handler) (kwargs : gmap string value)
    (fuel : nat) :
  (S (length (_get_param_methods cls)) <= fuel)%nat ->
  for_items cls_name (_get_param_methods cls) kwargs fuel (_get_param_methods cls) new_store
    = __init__ cls_name cls kwargs.
Proof.
  intros Hle. apply for_items_fuel_mono; [done|]. apply fuel_enough.
Qed.

(** ** Invariants of a construction *)

Section Invariant.
Variable cls_name : string.
Variable methods : list (string * handler).
Variable kwargs : gmap string value.

(** A property [Inv] of the store and a property [EInv] of the exceptions
    that every handler satisfying [okh] maintains. *)
Variable Inv : store -> Prop.
Variable EInv : exn -> Prop.
Variable okh : handler -> Prop.

Hypothesis methods_ok : forall k m, dict_get k methods = Some m -> okh m.
Hypothesis wrapper_ok : forall m s, okh m -> Inv s ->
  wp (wrapper cls_name kwargs m) s (fun _ s' => Inv s') (fun e s' => Inv s' /\ EInv e) True.
Hypothesis set_ok : forall k v s,
  Inv s -> Inv (mkStore (<[k := v]> (_param_vals s)) (attrs s) (calls s)).
Hypothesis EInv_cyclical : forall r, EInv (CyclicalDependencyError r).
Hypothesis EInv_required : forall d, EInv (RequiredParameterError cls_name d).
Hypothesis EInv_not_callable : EInv TypeError_NoneType_not_callable.
Hypothesis EInv_index : EInv IndexError.

Local Abbreviation pp := (_process_param cls_name methods kwargs).
Local Abbreviation deps_loop := (for_deps cls_name methods).
Local Abbreviation post := (fun (A : Type) (m : M A) (s : store) =>
  wp m s (fun _ s' => Inv s') (fun e s' => Inv s' /\ EInv e) True).

Lemma for_deps_inv rec deps : forall (chain : list string) s,
  (forall d c s', Inv s' -> post _ (rec d (dict_get d methods) c) s') ->
  Inv s -> post _ (deps_loop rec deps chain) s.
Proof.
  induction deps as [|d deps IH]; intros chain s Hrec Hs; simpl; [done|].
  case_bool_decide as Hin.
  - destruct chain; simpl; apply wp_bind; [by apply wp_raise|].
    apply wp_ret, wp_raise. auto.
  - apply wp_bind. unfold wp at 1, not_in_param_vals. apply wp_bind.
    destruct (bool_decide (_param_vals s !! d = None)).
    + eapply wp_conseq; [by apply Hrec| |done|done].
      intros c' s' Hs'. simpl in Hs'. apply wp_bind. unfold wp at 1, not_in_param_vals.
      destruct (bool_decide (_param_vals s' !! d = None)).
      * apply wp_raise. auto.
      * by apply IH.
    + apply wp_ret, wp_bind. unfold wp at 1, not_in_param_vals.
      destruct (bool_decide (_param_vals s !! d = None)).
      * apply wp_raise. auto.
      * by apply IH.
Qed.

Lemma pp_inv fuel : forall p method chain s,
  (forall m, method = Some m -> okh m) -> Inv s -> post _ (pp fuel p method chain) s.
Proof.
  induction fuel as [|fuel IH]; intros p method chain s Hm Hs; [done|].
  rewrite pp_unfold. apply wp_bind.
  eapply wp_conseq; [apply for_deps_inv; [|done]| |done|done].
  - intros d c s' Hs'. apply IH; [|done]. intros m Hd. by apply (methods_ok d).
  - intros c' s' Hs'. simpl in Hs'. apply wp_bind.
    assert (post _ (call_method cls_name kwargs method) s') as Hcall.
    { destruct method as [m|]; simpl; [by apply wrapper_ok; [apply Hm|]|].
      apply wp_raise. auto. }
    eapply wp_conseq; [apply Hcall| |done|done].
    intros r s1 Hs1. simpl in Hs1. apply wp_bind. unfold wp at 1, set_param_val.
    apply wp_ret. by apply set_ok.
Qed.

Lemma for_items_inv fuel items : forall s,
  (forall k m, (k, m) ∈ items -> okh m) -> Inv s ->
  post _ (for_items cls_name methods kwargs fuel items) s.
Proof.
  induction items as [|[k m] items IH]; intros s Hitems Hs; simpl; [done|].
  apply wp_bind. eapply wp_conseq; [apply pp_inv; [|done]| |done|done].
  - intros m' [= <-]. apply (Hitems k). left.
  - intros c' s' Hs'. simpl in Hs'. apply IH; [|done].
    intros k' m' Hin. apply (Hitems k'). by right.
Qed.
End Invariant.

(** ** What a construction reads of [kwargs] *)

Section Agreement.
Variable cls_name : string.
Variable methods : list (string * handler).
Variables kwargs1 kwargs2 : gmap string value.

Lemma wrapper_agree m s :
  kwargs1 !! param m = kwargs2 !! param m ->
  wrapper cls_name kwargs1 m s = wrapper cls_name kwargs2 m s.
Proof.
  intros H. rewrite !wrapper_unfold. unfold input_value. by rewrite H.
Qed.

Hypothesis agree : forall k m,
  dict_get k methods = Some m -> kwargs1 !! param m = kwargs2 !! param m.

Lemma for_deps_agree rec1 rec2 deps : forall (chain : list string) s,
  (forall d c s', rec1 d (dict_get d methods) c s' = rec2 d (dict_get d methods) c s') ->
  for_deps cls_name methods rec1 deps chain s = for_deps cls_name methods rec2 deps chain s.
Proof.
  induction deps as [|d deps IH]; intros chain s Hrec; simpl; [done|].
  case_bool_decide; [done|]. unfold bind, not_in_param_vals.
  destruct (bool_decide (_param_vals s !! d = None)).
  - rewrite Hrec. destruct (rec2 d (dict_get d methods) chain s) as [c' s'| |]; [|done..].
    destruct (bool_decide (_param_vals s' !! d = None)); [done|]. by apply IH.
  - unfold ret. destruct (bool_decide (_param_vals s !! d = None)); [done|]. by apply IH.
Qed.

Lemma pp_agree fuel : forall p method chain s,
  (forall m, method = Some m -> kwargs1 !! param m = kwargs2 !! param m) ->
  _process_param cls_name methods kwargs1 fuel p method chain s =
  _process_param cls_name methods kwargs2 fuel p method chain s.
Proof.
  induction fuel as [|fuel IH]; intros p method chain s Hm; [done|].
  rewrite !pp_unfold. apply bind_ext.
  - apply for_deps_agree. intros d c s'. apply IH. intros m Hd. by apply (agree d).
  - intros c' s'. apply bind_ext; [|done].
    destruct method as [m|]; simpl; [|done]. by apply wrapper_agree, Hm.
Qed.

Lemma for_items_agree fuel items : forall s,
  (forall k m, (k, m) ∈ items -> kwargs1 !! param m = kwargs2 !! param m) ->
  for_items cls_name methods kwargs1 fuel items s =
  for_items cls_name methods kwargs2 fuel items s.
Proof.
  induction items as [|[k m] items IH]; intros s Hitems; simpl; [done|].
  apply bind_ext.
  - apply pp_agree. intros m' [= <-]. apply (Hitems k). left.
  - intros c' s'. apply IH. intros k' m' Hin. apply (Hitems k'). by right.
Qed.
End Agreement.

(** ** A handler that always raises stops the construction *)

Section Failing.
Variable cls_name : string.
Variable methods : list (string * handler).
Variable kwargs : gmap string value.

Lemma pp_never_ok fuel p m chain s :
  (forall s', wp (wrapper cls_name kwargs m) s' (fun _ _ => False) (fun _ _ => True) True) ->
  wp (_process_param cls_name methods kwargs fuel p (Some m) chain) s
     (fun _ _ => False) (fun _ _ => True) True.
Proof.
  intros Hw. destruct fuel as [|fuel]; [done|].
  rewrite pp_unfold. unfold wp, bind.
  destruct (for_deps _ _ _ _ _ s) as [c' s'| |]; [|done..]. simpl.
  specialize (Hw s'). unfold wp in Hw.
  by destruct (wrapper cls_name kwargs m s').
Qed.

Lemma for_items_never_ok fuel items p m : forall s,
  (p, m) ∈ items ->
  (forall s', wp (wrapper cls_name kwargs m) s' (fun _ _ => False) (fun _ _ => True) True) ->
  wp (for_items cls_name methods kwargs fuel items) s
     (fun _ _ => False) (fun _ _ => True) True.
Proof.
  induction items as [|[k m'] items IH]; intros s Hin Hw; [by apply elem_of_nil in Hin|].
  simpl. apply wp_bind. apply elem_of_cons in Hin as [[= <- <-]|Hin].
  - eapply wp_conseq; [by apply pp_never_ok|done..].
  - unfold wp at 1. destruct (_process_param _ _ _ _ _ _ _ s) as [c' s'| |]; [|done..].
    by apply IH.
Qed.
End Failing.

Lemma _get_param_methods_elem (cls : list handler) k m :
  (k, m) ∈ _get_param_methods cls -> m ∈ cls /\ param m = k.
Proof.
  intros Hin. split; [|by apply (proj1 (_get_param_methods_spec cls))].
  revert Hin. unfold _get_param_methods.
  cut (forall d : list (string * handler),
        (k, m) ∈ fold_left (fun methods attr => dict_set (param attr) attr methods) cls d ->
        m ∈ cls \/ (k, m) ∈ d).
  { intros H Hin. destruct (H [] Hin) as [?|Hnil]; [done|]. by apply elem_of_nil in Hnil. }
  induction cls as [|m0 cls IH]; simpl; intros d Hin; [by right|].
  destruct (IH _ Hin) as [?|Hd]; [left; by right|].
  clear -Hd. induction d as [|[k1 m1] d IHd]; simpl in Hd.
  - apply list_elem_of_singleton in Hd. injection Hd as -> ->. left. left.
  - destruct (String.eqb (param m0) k1).
    + apply elem_of_cons in Hd as [[= -> ->]|Hd]; [left; left|right; by right].
    + apply elem_of_cons in Hd as [[= -> ->]|Hd]; [right; left|].
      destruct (IHd Hd) as [?|?]; [by left|right; by right].
Qed.

(** The attributes a construction has set bear declared names. *)
Lemma attrs_declared (cls_name : string) (cls : list handler) (kwargs : gmap string value) :
  let Inv := fun s : store =>
    forall k, is_Some (attrs s !! k) -> exists m, m ∈ cls /\ param m = k in
  wp (for_items cls_name (_get_param_methods cls) kwargs
        (S (length (_get_param_methods cls))) (_get_param_methods cls)) new_store
     (fun _ s => Inv s) (fun _ s => Inv s /\ True) True.
Proof.
  intros Inv.
  apply (for_items_inv cls_name (_get_param_methods cls) kwargs Inv (fun _ => True)
           (fun m => m ∈ cls)); try done.
  - intros k m Hget%dict_get_Some_elem. by apply (_get_param_methods_elem cls k).
  - intros m s Hm Hs. unfold wp. rewrite wrapper_unfold.
    pose proof (input_value_store cls_name kwargs m s) as Hst. unfold wp in Hst.
    destruct (input_value cls_name kwargs m s) as [val s1|e1 s1|]; subst; [|done..].
    destruct (f m (attrs s) val); simpl; [|done].
    intros k. destruct (decide (k = param m)) as [->|Hk]; [by exists m|].
    unfold stored. cbn [attrs]. rewrite lookup_insert_ne by done. apply Hs.
  - intros k m Hin. by apply (_get_param_methods_elem cls k).
  - intros k [v Hv]. unfold new_store in Hv. cbn [attrs] in Hv.
    by rewrite lookup_empty in Hv.
Qed.

(** ** Two parameters that depend on each other *)

Section Cycle.
Variable cls_name : string.
Variable methods : list (string * handler).
Variable kwargs : gmap string value.
Variables (a b : string) (ma mb : handler).

Hypothesis keyed : forall k m, dict_get k methods = Some m -> param m = k.
Hypothesis declared_a : dict_get a methods = Some ma.
Hypothesis declared_b : dict_get b methods = Some mb.
Hypothesis a_needs_b : b ∈ depends_on ma.
Hypothesis b_needs_a : a ∈ depends_on mb.

Local Abbreviation pp := (_process_param cls_name methods kwargs).
Local Abbreviation deps_loop := (for_deps cls_name methods).

Lemma untouched_resolved (d : string) (s : store) :
  untouched a b s -> is_Some (_param_vals s !! d) -> d <> a /\ d <> b.
Proof.
  intros (Ha & Hb & _) [v Hv]. split; intros ->; congruence.
Qed.

(** If the loop over the dependencies comes to its end, neither [a] nor
    [b] was among them. *)
Lemma for_deps_cycle rec deps : forall (chain : list string) s,
  (forall d c s', untouched a b s' ->
     wp (rec d (dict_get d methods) c) s'
        (fun _ s2 => untouched a b s2 /\ is_Some (_param_vals s2 !! d))
        (fun _ s2 => untouched a b s2) True) ->
  untouched a b s ->
  wp (deps_loop rec deps chain) s
     (fun _ s' => untouched a b s' /\ (a ∉ deps) /\ (b ∉ deps))
     (fun _ s' => untouched a b s') True.
Proof.
  induction deps as [|d deps IH]; intros chain s Hrec Hs; simpl.
  - apply wp_ret. split; [done|]. split; apply not_elem_of_nil.
  - case_bool_decide as Hin.
    + destruct chain; simpl; apply wp_bind; [by apply wp_raise|].
      by apply wp_ret, wp_raise.
    + assert (forall c' s', untouched a b s' -> is_Some (_param_vals s' !! d) ->
        wp (failed <~ not_in_param_vals d ;;
            if failed : bool
            then raise (RequiredParameterError cls_name d)
            else deps_loop rec deps c')%py s'
           (fun _ s2 => untouched a b s2 /\ (a ∉ d :: deps) /\ (b ∉ d :: deps))
           (fun _ s2 => untouched a b s2) True) as Hnext.
      { intros c' s' Hs' Hd. apply wp_bind. unfold wp at 1, not_in_param_vals.
        rewrite bool_decide_eq_false_2 by (destruct Hd as [v Hv]; congruence).
        destruct (untouched_resolved d s' Hs' Hd) as [Hda Hdb].
        eapply wp_conseq; [by apply IH| |done|done].
        intros c2 s2 (Hs2 & Ha & Hb). simpl.
        rewrite !not_elem_of_cons. auto. }
      apply wp_bind. unfold wp at 1, not_in_param_vals. apply wp_bind.
      case_bool_decide as Hd.
      * eapply wp_conseq; [by apply Hrec| |done|done].
        intros c' s' [Hs' Hd']. by apply Hnext.
      * apply wp_ret, Hnext; [done|]. by destruct (_param_vals s !! d); [eexists|].
Qed.

Lemma pp_cycle fuel : forall p chain s,
  untouched a b s ->
  wp (pp fuel p (dict_get p methods) chain) s
     (fun _ s' => untouched a b s' /\ is_Some (_param_vals s' !! p))
     (fun _ s' => untouched a b s') True.
Proof.
  induction fuel as [|fuel IH]; intros p chain s Hs; [done|].
  rewrite pp_unfold. apply wp_bind.
  eapply wp_conseq; [apply for_deps_cycle; [|done]| |done|done].
  { intros d c s' Hs'. by apply IH. }
  intros c' s' (Hs' & Hna & Hnb). simpl.
  destruct (dict_get p methods) as [m|] eqn:Hm; [|by apply wp_bind, wp_raise].
  pose proof (keyed _ _ Hm) as Hpm. simpl in Hna, Hnb.
  assert (p <> a) as Hpa by (intros ->; congruence).
  assert (p <> b) as Hpb by (intros ->; congruence).
  apply wp_bind. unfold wp at 1. simpl. rewrite wrapper_unfold.
  pose proof (input_value_store cls_name kwargs m s') as Hst. unfold wp in Hst.
  destruct (input_value cls_name kwargs m s') as [val s1|e s1|]; [subst s1|by subst s1|done].
  destruct Hs' as (Hva & Hvb & Hca & Hcb).
  assert ((a ∉ calls s' ++ [param m]) /\ (b ∉ calls s' ++ [param m])) as [Hca' Hcb'].
  { rewrite !elem_of_app, !list_elem_of_singleton. split; intros [?|?]; congruence. }
  destruct (f m (attrs s') val) as [retval|msg]; [|done].
  apply wp_bind. unfold wp at 1, set_param_val, stored. apply wp_ret. simpl.
  rewrite lookup_insert_eq. split; [|by eexists].
  unfold untouched. simpl. by rewrite !lookup_insert_ne by done.
Qed.

Lemma for_items_cycle fuel items : forall s,
  (forall k m, (k, m) ∈ items -> dict_get k methods = Some m) ->
  untouched a b s ->
  wp (for_items cls_name methods kwargs fuel items) s
     (fun _ s' => untouched a b s' /\ (a ∉ dict_keys items))
     (fun _ s' => untouched a b s') True.
Proof.
  induction items as [|[k m] items IH]; intros s Hitems Hs; simpl.
  - apply wp_ret. split; [done|apply not_elem_of_nil].
  - apply wp_bind. rewrite <-(Hitems k m) by left.
    eapply wp_conseq; [by apply pp_cycle| |done|done].
    intros c' s' [Hs' Hk]. simpl.
    destruct (untouched_resolved k s' Hs' Hk) as [Hka _].
    eapply wp_conseq; [apply IH; [|done]| |done|done].
    + intros k' m' Hin. apply Hitems. by right.
    + intros r s2 [Hs2 Ha]. simpl. split; [done|].
      unfold dict_keys in *. simpl. rewrite not_elem_of_cons. auto.
Qed.
End Cycle.

(** A class that declares two parameters depending on each other never
    constructs, and the handlers of the two never run. *)
Lemma cycle_never_constructs (cls_name : string) (cls : list handler)
    (kwargs : gmap string value) (a b : string) (ma mb : handler) :
  declares cls a ma -> declares cls b mb ->
  b ∈ depends_on ma -> a ∈ depends_on mb ->
  exists e s, __init__ cls_name cls kwargs = Raise e s /\ (a ∉ calls s) /\ (b ∉ calls s).
Proof.
  intros Ha Hb Hab Hba. destruct (_get_param_methods_spec cls) as [Hkeyed Hnd].
  pose proof (fuel_enough cls_name cls kwargs) as Hfuel.
  pose proof (for_items_cycle cls_name (_get_param_methods cls) kwargs a b ma mb) as Hc.
  specialize (Hc (fun k m H => Hkeyed k m (dict_get_Some_elem _ _ _ H)) Ha Hb Hab Hba).
  specialize (Hc (S (length (_get_param_methods cls))) (_get_param_methods cls) new_store).
  unfold __init__, wp in *.
  destruct (for_items _ _ _ _ _ new_store) as [r s|e s|]; [| |done].
  - exfalso. destruct Hc as [_ Hna].
    + intros k m Hin. by apply dict_elem_get.
    + repeat split; try apply lookup_empty; apply not_elem_of_nil.
    + apply Hna. by apply dict_get_Some_key in Ha.
  - exists e, s. split; [done|]. apply Hc.
    + intros k m Hin. by apply dict_elem_get.
    + repeat split; try apply lookup_empty; apply not_elem_of_nil.
Qed.

(** ** Handlers of a declared parameter *)

(** The dict holds one handler per name. *)
Lemma declared_handler_unique (cls : list handler) p m k m' :
  declares cls p m -> (k, m') ∈ _get_param_methods cls -> param m' = p -> m' = m.
Proof.
  intros Hdecl Hin Hp. destruct (_get_param_methods_spec cls) as [Hkeyed Hnd].
  pose proof (Hkeyed _ _ Hin) as Hk.
  assert (dict_get p (_get_param_methods cls) = Some m') as H1
    by (apply dict_elem_get; [done|]; congruence).
  unfold declares in Hdecl. congruence.
Qed.

Lemma declared_handler_unique_get (cls : list handler) p m k m' :
  declares cls p m -> dict_get k (_get_param_methods cls) = Some m' -> param m' = p -> m' = m.
Proof.
  intros Hdecl Hget%dict_get_Some_elem. by apply (declared_handler_unique cls p m k).
Qed.

(** The exceptions of [wrapper]. *)
Lemma wrapper_raises (cls_name : string) (kwargs : gmap string value) m s e s' :
  wrapper cls_name kwargs m s = Raise e s' ->
  (exists ty, e = ParameterTypeError (param m) ty) \/
  e = RequiredParameterError cls_name (param m) \/
  (exists msg, e = HandlerError msg).
Proof.
  rewrite wrapper_unfold. unfold input_value.
  destruct (kwargs !! param m) as [val|].
  - destruct (ensure_type m) as [ty|]; [destruct (isinstance val ty)|]; simpl.
    + destruct (f m (attrs s) val); [done|]. intros [= <- <-]. eauto.
    + intros [= <- <-]. eauto.
    + destruct (f m (attrs s) val); [done|]. intros [= <- <-]. eauto.
  - destruct (default m) as [val|]; simpl.
    + destruct (f m (attrs s) val); [done|]. intros [= <- <-]. eauto.
    + intros [= <- <-]. eauto.
Qed.

(** When the handler of a declared parameter raises whenever it is called,
    construction raises, and the body of that handler has not run. *)
Lemma failing_handler_stops (cls_name : string) (cls : list handler)
    (kwargs : gmap string value) (p : string) (m : handler) (e0 : exn) :
  declares cls p m ->
  (forall s, wrapper cls_name kwargs m s = Raise e0 s) ->
  exists e s, __init__ cls_name cls kwargs = Raise e s /\ (p ∉ calls s).
Proof.
  intros Hdecl Hw.
  pose proof (fuel_enough cls_name cls kwargs) as Hfuel.
  pose proof (for_items_never_ok cls_name (_get_param_methods cls) kwargs
                (S (length (_get_param_methods cls))) (_get_param_methods cls) p m
                new_store (dict_get_Some_elem _ _ _ Hdecl)) as Hnok.
  assert (wp (for_items cls_name (_get_param_methods cls) kwargs
                (S (length (_get_param_methods cls))) (_get_param_methods cls)) new_store
             (fun _ s => p ∉ calls s) (fun _ s => (p ∉ calls s) /\ True) True) as Hinv.
  { apply (for_items_inv cls_name (_get_param_methods cls) kwargs
             (fun s => p ∉ calls s) (fun _ => True) (fun m' => param m' = p -> m' = m));
      try done.
    - intros k m' Hget. by apply (declared_handler_unique_get cls p m k).
    - intros m' s' Hok Hs'. unfold wp. rewrite wrapper_unfold.
      pose proof (input_value_store cls_name kwargs m' s') as Hst. unfold wp in Hst.
      destruct (decide (param m' = p)) as [Heq|Hneq].
      { rewrite (Hok Heq) in *. by rewrite <-wrapper_unfold, Hw. }
      destruct (input_value cls_name kwargs m' s') as [val s1|e1 s1|];
        [subst s1|by subst s1|done].
      assert (p ∉ calls s' ++ [param m']) as Hcalls.
      { rewrite elem_of_app, list_elem_of_singleton. intros [?|?]; [done|congruence]. }
      by destruct (f m' (attrs s') val).
    - intros k m' Hin. by apply (declared_handler_unique cls p m k).
    - apply not_elem_of_nil. }
  unfold __init__ in *. unfold wp in Hnok, Hinv.
  destruct (for_items _ _ _ _ _ new_store) as [r s|e s|] eqn:Hrun.
  - exfalso. apply Hnok. intros s'. unfold wp. by rewrite Hw.
  - exists e, s. split; [done|]. apply Hinv.
  - done.
Qed.

(** When the handler of a declared parameter [p] never raises
    [ParameterTypeError], construction never raises one that names [p]. *)
Lemma no_type_error_for (cls_name : string) (cls : list handler)
    (kwargs : gmap string value) (p : string) (m : handler) :
  declares cls p m ->
  (forall s p' ty' s', wrapper cls_name kwargs m s <> Raise (ParameterTypeError p' ty') s') ->
  forall ty' s, __init__ cls_name cls kwargs <> Raise (ParameterTypeError p ty') s.
Proof.
  intros Hdecl Hw ty' s Hrun.
  assert (wp (for_items cls_name (_get_param_methods cls) kwargs
                (S (length (_get_param_methods cls))) (_get_param_methods cls)) new_store
             (fun _ _ => True)
             (fun e _ => True /\ forall ty, e <> ParameterTypeError p ty) True) as Hinv.
  { apply (for_items_inv cls_name (_get_param_methods cls) kwargs
             (fun _ => True) (fun e => forall ty, e <> ParameterTypeError p ty)
             (fun m' => param m' = p -> m' = m)); try done.
    - intros k m' Hget. by apply (declared_handler_unique_get cls p m k).
    - intros m' s' Hok _. unfold wp.
      destruct (wrapper cls_name kwargs m' s') as [r s1|e s1|] eqn:Hrun'; [done| |done].
      split; [done|]. intros ty ->.
      pose proof (wrapper_raises _ _ _ _ _ _ Hrun') as [[ty0 [= Hp _]]|[[=]|[msg [=]]]].
      rewrite (Hok (eq_sym Hp)) in Hrun'. by apply Hw in Hrun'.
    - intros k m' Hin. by apply (declared_handler_unique cls p m k). }
  unfold __init__ in Hrun. unfold wp in Hinv. rewrite Hrun in Hinv.
  by destruct Hinv as [_ []%(fun H => H ty')].
Qed.

(** ** What a successful construction has done *)

Lemma pp_ok_handler_ran (cls_name : string) (methods : list (string * handler))
    (kwargs : gmap string value) fuel p m chain s c' s' :
  _process_param cls_name methods kwargs fuel p (Some m) chain s = Ok c' s' ->
  is_Some (attrs s' !! param m) /\ param m ∈ calls s'.
Proof.
  destruct fuel as [|fuel]; [done|].
  rewrite pp_unfold. intros (c1 & s1 & _ & H)%bind_ok.
  apply bind_ok in H as (r & s2 & Hw & H). simpl in Hw. rewrite wrapper_unfold in Hw.
  pose proof (input_value_store cls_name kwargs m s1) as Hst. unfold wp in Hst.
  destruct (input_value cls_name kwargs m s1) as [val s1'| |]; [subst s1'|done..].
  destruct (f m (attrs s1) val) as [retval|]; [|done].
  injection Hw as <- <-.
  apply bind_ok in H as ([] & s3 & Hset & Hret).
  unfold set_param_val in Hset. injection Hset as <-. injection Hret as _ <-.
  simpl. rewrite lookup_insert_eq. split; [by eexists|].
  apply elem_of_app. right. left.
Qed.

(** Once a parameter is an attribute and its handler has run, this stays so. *)
Lemma resolved_kept (cls_name : string) (methods : list (string * handler))
    (kwargs : gmap string value) (p : string) fuel items s0 :
  is_Some (attrs s0 !! p) /\ p ∈ calls s0 ->
  wp (for_items cls_name methods kwargs fuel items) s0
     (fun _ s' => is_Some (attrs s' !! p) /\ p ∈ calls s')
     (fun _ s' => (is_Some (attrs s' !! p) /\ p ∈ calls s') /\ True) True.
Proof.
  intros Hs0.
  apply (for_items_inv cls_name methods kwargs
           (fun s => is_Some (attrs s !! p) /\ p ∈ calls s) (fun _ => True)
           (fun _ => True)); try done.
  intros m' s1 _ [Hattr Hcalls]. unfold wp. rewrite wrapper_unfold.
  pose proof (input_value_store cls_name kwargs m' s1) as Hst. unfold wp in Hst.
  destruct (input_value cls_name kwargs m' s1) as [val s1'|e s1'|];
    [subst s1'|by subst s1'|done].
  assert (p ∈ calls s1 ++ [param m']) by (apply elem_of_app; by left).
  destruct (f m' (attrs s1) val) as [retval|]; [|done].
  split; [|done]. unfold stored. simpl. rewrite lookup_insert_is_Some.
  destruct (decide (param m' = p)); auto.
Qed.

Lemma for_items_ok_resolved (cls_name : string) (methods : list (string * handler))
    (kwargs : gmap string value) (p : string) (m : handler) fuel items :
  forall s0 r s,
  (p, m) ∈ items -> param m = p ->
  for_items cls_name methods kwargs fuel items s0 = Ok r s ->
  is_Some (attrs s !! p) /\ p ∈ calls s.
Proof.
  induction items as [|[k m'] items IH]; intros s0 r s Hin Hp;
    [by apply elem_of_nil in Hin|].
  simpl. intros (c1 & s1 & Hpp & Hrest)%bind_ok.
  apply elem_of_cons in Hin as [[= <- <-]|Hin]; [|by apply (IH s1 r)].
  apply pp_ok_handler_ran in Hpp. rewrite Hp in Hpp.
  by apply (wp_ok _ _ _ _ _ _ _ (resolved_kept cls_name methods kwargs p fuel items s1 Hpp) Hrest).
Qed.

(** After a construction that succeeds, every declared parameter is an
    attribute and its handler has run (at least once). *)
Lemma init_ok_resolved (cls_name : string) (cls : list handler)
    (kwargs : gmap string value) r s p m :
  __init__ cls_name cls kwargs = Ok r s ->
  declares cls p m ->
  is_Some (attrs s !! p) /\ p ∈ calls s.
Proof.
  intros Hrun Hdecl. pose proof (declares_param _ _ _ Hdecl) as Hp.
  apply dict_get_Some_elem in Hdecl. unfold __init__ in Hrun.
  by apply (for_items_ok_resolved _ _ _ p m _ _ _ _ _ Hdecl Hp Hrun).
Qed.

(** The attribute of a declared parameter that is omitted and has a
    default was computed from the default. *)
Lemma default_attr (cls_name : string) (cls : list handler)
    (kwargs : gmap string value) (p : string) (m : handler) (dv : value) r s :
  declares cls p m -> default m = Some dv -> kwargs !! p = None ->
  __init__ cls_name cls kwargs = Ok r s ->
  exists retval, attrs s !! p = Some (py_or retval dv).
Proof.
  intros Hdecl Hdef Hk Hrun. pose proof (declares_param _ _ _ Hdecl) as Hp.
  destruct (init_ok_resolved _ _ _ _ _ _ _ Hrun Hdecl) as [[v Hv] _].
  set (Inv := fun s : store => forall v, attrs s !! p = Some v -> exists retval, v = py_or retval dv).
  assert (wp (for_items cls_name (_get_param_methods cls) kwargs
                (S (length (_get_param_methods cls))) (_get_param_methods cls)) new_store
             (fun _ s => Inv s) (fun _ s => Inv s /\ True) True) as Hinv.
  { apply (for_items_inv cls_name (_get_param_methods cls) kwargs Inv (fun _ => True)
             (fun m' => param m' = p -> m' = m)); try done.
    - intros k m' Hget. by apply (declared_handler_unique_get cls p m k).
    - intros m' s1 Hok Hs1. unfold wp. rewrite wrapper_unfold.
      destruct (decide (param m' = p)) as [Heq|Hneq].
      + rewrite (Hok Heq). rewrite input_value_omitted by by rewrite Hp.
        rewrite Hdef. destruct (f m (attrs s1) dv) as [retval|]; [|done].
        intros v'. unfold stored. simpl. rewrite Hp, lookup_insert_eq.
        intros [= <-]. by exists retval.
      + pose proof (input_value_store cls_name kwargs m' s1) as Hst. unfold wp in Hst.
        destruct (input_value cls_name kwargs m' s1) as [val s1'|e s1'|];
          [subst s1'|by subst s1'|done].
        destruct (f m' (attrs s1) val) as [retval|]; [|done].
        intros v'. unfold stored. simpl. rewrite lookup_insert_ne by done. apply Hs1.
    - intros k m' Hin. by apply (declared_handler_unique cls p m k). }
  unfold __init__ in Hrun. unfold wp in Hinv. rewrite Hrun in Hinv.
  destruct (Hinv v Hv) as [retval ->]. by exists retval.
Qed.

(** Resolving a name that has no handler calls [None]. *)
Lemma pp_undeclared (cls_name : string) (methods : list (string * handler))
    (kwargs : gmap string value) fuel d chain s :
  _process_param cls_name methods kwargs (S fuel) d None chain s
    = Raise TypeError_NoneType_not_callable s.
Proof. by rewrite pp_unfold. Qed.

(** A dependency that has its entry in [_param_vals] and is not on the
    chain is passed over by the loop of [_process_param]. *)
Lemma for_deps_skip (cls_name : string) (methods : list (string * handler)) rec deps :
  forall (chain : list string) (s : store),
  (forall d, d ∈ deps -> (d ∉ chain) /\ is_Some (_param_vals s !! d)) ->
  for_deps cls_name methods rec deps chain s = Ok chain s.
Proof.
  induction deps as [|d deps IH]; intros chain s Hdeps; simpl; [done|].
  destruct (Hdeps d) as [Hnin [v Hv]]; [left|].
  rewrite bool_decide_eq_false_2 by done.
  unfold bind, not_in_param_vals. rewrite bool_decide_eq_false_2 by congruence.
  unfold ret. rewrite bool_decide_eq_false_2 by congruence.
  apply IH. intros d' Hd'. apply Hdeps. by right.
Qed.

(** ** The claims *)

(** C1: the diamond [a -> b], [a -> c], [b -> d], [c -> d] with every value
    supplied.  When [_param_methods] lists [b] before [a], construction
    succeeds and the handler of [a] runs twice: once as the dependency of
    [b] and once more from the loop of [__init__].  When it lists [d] first,
    construction raises [CyclicalDependencyError], because [chain] still
    holds [a] from the branch through [b] when [c] asks for it.  Only in
    dependency order does every handler run once.  The last two lines are
    the same diamond named from the top ([a] depends on [b] and [c], which
    depend on [d]), whose handlers start with the top one in alphabetical
    order. *)
Theorem C1_diamond_handler_runs_twice :
  (exists s, __init__ "Diamond" [Examples.b; Examples.a; Examples.c; Examples.d] Examples.abcd
               = Ok tt s /\
             calls s = ["a"; "b"; "a"; "c"; "d"] /\ count_calls "a" s = 2%nat) /\
  (exists s, __init__ "Diamond" [Examples.d; Examples.b; Examples.c; Examples.a] Examples.abcd
               = Raise (CyclicalDependencyError "d") s /\
             calls s = ["a"; "b"]) /\
  (exists s, __init__ "Diamond" [Examples.a; Examples.b; Examples.c; Examples.d] Examples.abcd
               = Ok tt s /\
             calls s = ["a"; "b"; "c"; "d"]) /\
  (exists s, __init__ "Diamond"
               [Examples.top_a; Examples.left_b; Examples.right_c; Examples.root_d]
               Examples.abcd
               = Raise (CyclicalDependencyError "a") s /\
             calls s = ["d"; "b"]) /\
  (exists s, __init__ "Diamond"
               [Examples.top_a; Examples.right_c; Examples.left_b; Examples.root_d]
               Examples.abcd
               = Raise (CyclicalDependencyError "a") s /\
             calls s = ["d"; "b"]).
Proof.
  repeat split; eexists; (split; [vm_compute; reflexivity|]);
    try split; vm_compute; reflexivity.
Qed.

(** C2: in the example of the documentation, with [first_name='Kid'],
    [age=12] and [can_vote=True], construction succeeds in every order of
    the three handlers, the handler of [can_vote] returns [False], and the
    attribute [can_vote] ends up [True]: [retval or val] discards the
    [False]. *)
Theorem C2_kid_can_vote_is_true :
  Forall (fun cls =>
            exists s, __init__ "Person" cls Examples.kid = Ok tt s /\
                      attrs s !! "age" = Some (VInt 12) /\
                      attrs s !! "can_vote" = Some (VBool true))
    [ [Examples.age; Examples.can_vote; Examples.first_name];
      [Examples.age; Examples.first_name; Examples.can_vote];
      [Examples.can_vote; Examples.age; Examples.first_name];
      [Examples.can_vote; Examples.first_name; Examples.age];
      [Examples.first_name; Examples.age; Examples.can_vote];
      [Examples.first_name; Examples.can_vote; Examples.age] ] /\
  Examples.f_vote {["age" := VInt 12]} (VBool true) = Return (VBool false) /\
  py_or (VBool false) (VBool true) = VBool true.
Proof.
  split; [|split; reflexivity].
  repeat apply Forall_cons_2; try apply Forall_nil_2;
    (eexists; split; [vm_compute; reflexivity|]; split; vm_compute; reflexivity).
Qed.

(** C3: when the handler of a parameter returns a falsy result ([None] for
    a body that passes, but also [False], [0], [''] or [[]]), [wrapper]
    stores the raw input value (supplied or default) as the attribute; a
    truthy result is stored itself. *)
Theorem C3_falsy_result_keeps_raw_value (cls_name : string) (kwargs : gmap string value)
    (m : handler) (s : store) (val retval : value) :
  input_value cls_name kwargs m s = Ok val s ->
  f m (attrs s) val = Return retval ->
  wrapper cls_name kwargs m s = Ok VNone (stored m val retval s) /\
  (retval = VNone \/ retval = VBool false \/ retval = VInt 0 \/
   retval = VStr "" \/ retval = VList [] ->
     attrs (stored m val retval s) !! param m = Some val) /\
  (truthy retval = false -> attrs (stored m val retval s) !! param m = Some val) /\
  (truthy retval = true -> attrs (stored m val retval s) !! param m = Some retval).
Proof.
  intros Hin Hf. rewrite wrapper_unfold, Hin, Hf.
  assert (forall v, attrs (stored m val retval s) !! param m = Some v <-> py_or retval val = v) as Hl.
  { intros v. unfold stored. simpl. rewrite lookup_insert_eq. split; congruence. }
  split; [done|]. unfold py_or in Hl. split; [|split].
  - intros H%truthy_false_iff. apply Hl. by rewrite H.
  - intros H. apply Hl. by rewrite H.
  - intros H. apply Hl. by rewrite H.
Qed.

Lemma C3_witness :
  let s := mkStore ∅ {["age" := VInt 12]} ["age"] in
  (input_value "Person" Examples.kid Examples.can_vote s = Ok (VBool true) s /\
   f Examples.can_vote (attrs s) (VBool true) = Return (VBool false)) /\
  attrs (stored Examples.can_vote (VBool true) (VBool false) s) !! "can_vote"
    = Some (VBool true).
Proof.
  intros s. split; [split; reflexivity|].
  apply (C3_falsy_result_keeps_raw_value "Person" Examples.kid Examples.can_vote s
           (VBool true) (VBool false)); reflexivity.
Defined.

(** C4: a parameter [p] that depends on [q], which no handler declares.
    [_process_param] is entered for [q] with [method = None] and calls it:
    the construction ends with the [TypeError] of calling [None], not with
    [RequiredParameterError].  The same holds wherever a name without a
    handler is resolved. *)
Theorem C4_undeclared_dependency_is_TypeError :
  __init__ "Config" [Examples.p_needs_q] {["p" := VInt 1]}
    = Raise TypeError_NoneType_not_callable new_store /\
  (forall s, __init__ "Config" [Examples.p_needs_q] {["p" := VInt 1]}
     <> Raise (RequiredParameterError "Config" "q") s) /\
  (forall cls_name methods kwargs fuel d chain s,
     _process_param cls_name methods kwargs (S fuel) d None chain s
       = Raise TypeError_NoneType_not_callable s).
Proof.
  split; [vm_compute; reflexivity|]. split; [intros s; vm_compute; discriminate|].
  intros. apply pp_undeclared.
Qed.

(** C5: [a] depends on [b], and [_param_methods] lists [a] first.  The
    top-level call for [a] resolves [b] and leaves an entry for it in
    [_param_vals]; the loop of [__init__] then calls [_process_param] for
    [b] all the same, and the handler of [b] runs a second time. *)
Theorem C5_top_level_recomputes :
  let methods := _get_param_methods [Examples.a_needs_b; Examples.plain_b] in
  let kwargs : gmap string value := {["a" := VInt 1; "b" := VInt 2]} in
  exists c1 s1 c2 s2,
    _process_param "Pair" methods kwargs 3 "a" (Some Examples.a_needs_b) None new_store
      = Ok c1 s1 /\
    _param_vals s1 !! "b" = Some VNone /\
    calls s1 = ["b"; "a"] /\
    _process_param "Pair" methods kwargs 3 "b" (Some Examples.plain_b) None s1 = Ok c2 s2 /\
    calls s2 = ["b"; "a"; "b"] /\
    __init__ "Pair" [Examples.a_needs_b; Examples.plain_b] kwargs = Ok tt s2.
Proof.
  do 4 eexists.
  split; [vm_compute; reflexivity|].
  split; [vm_compute; reflexivity|].
  split; [vm_compute; reflexivity|].
  split; [vm_compute; reflexivity|].
  split; vm_compute; reflexivity.
Qed.

(** C6, as the claim states it, fails.  With an independent parameter [a]
    listed before the pair [b], [c] that depend on each other, the handler
    of [a] runs before the cycle is met (in either order of [b] and [c]).
    And with two parameters only, [a] depending on an undeclared [q] before
    [b], construction ends with the [TypeError] of the undeclared name and
    never reports the cycle. *)
Lemma C6_counterexample :
  (declares [Examples.a; Examples.b_needs_c; Examples.c_needs_b] "b" Examples.b_needs_c /\
   declares [Examples.a; Examples.b_needs_c; Examples.c_needs_b] "c" Examples.c_needs_b /\
   "c" ∈ depends_on Examples.b_needs_c /\ "b" ∈ depends_on Examples.c_needs_b) /\
  (exists s, __init__ "Trio" [Examples.a; Examples.b_needs_c; Examples.c_needs_b] Examples.abcd
               = Raise (CyclicalDependencyError "b") s /\
             calls s = ["a"] /\ attrs s !! "a" = Some (VInt 1)) /\
  (exists s, __init__ "Trio" [Examples.a; Examples.c_needs_b; Examples.b_needs_c] Examples.abcd
               = Raise (CyclicalDependencyError "c") s /\
             calls s = ["a"] /\ attrs s !! "a" = Some (VInt 1)) /\
  (declares [Examples.a_needs_q_b; Examples.b_needs_a] "a" Examples.a_needs_q_b /\
   declares [Examples.a_needs_q_b; Examples.b_needs_a] "b" Examples.b_needs_a /\
   "b" ∈ depends_on Examples.a_needs_q_b /\ "a" ∈ depends_on Examples.b_needs_a) /\
  __init__ "Pair" [Examples.a_needs_q_b; Examples.b_needs_a] Examples.abcd
    = Raise TypeError_NoneType_not_callable new_store.
Proof.
  split; [|split; [|split; [|split]]].
  - repeat split; try reflexivity; left.
  - eexists. split; [vm_compute; reflexivity|]. split; vm_compute; reflexivity.
  - eexists. split; [vm_compute; reflexivity|]. split; vm_compute; reflexivity.
  - repeat split; try reflexivity; [right|]; left.
  - vm_compute. reflexivity.
Qed.

(** C6, amended: a class that declares two parameters [a] and [b], each
    depending on the other, never constructs: [__init__] raises, and the
    handlers of [a] and [b] have not run.  When [a] and [b] are all the
    class declares, [a] first, and their dependencies name only the two,
    the exception is [CyclicalDependencyError] naming [a], raised with the
    store untouched: no handler has run.  And every
    [CyclicalDependencyError] that a top-level call of [_process_param]
    raises names the parameter of that call, which is [chain[0]]. *)
Theorem C6_cycle_never_constructs (cls_name : string) (cls : list handler)
    (kwargs : gmap string value) (a b : string) (ma mb : handler) :
  declares cls a ma ->
  declares cls b mb ->
  b ∈ depends_on ma ->
  a ∈ depends_on mb ->
  (exists e s, __init__ cls_name cls kwargs = Raise e s /\ (a ∉ calls s) /\ (b ∉ calls s)) /\
  (_get_param_methods cls = [(a, ma); (b, mb)] ->
   (forall d, d ∈ depends_on ma ++ depends_on mb -> d = a \/ d = b) ->
   __init__ cls_name cls kwargs = Raise (CyclicalDependencyError a) new_store) /\
  (forall fuel p method s r s',
     _process_param cls_name (_get_param_methods cls) kwargs fuel p method None s
       = Raise (CyclicalDependencyError r) s' -> r = p).
Proof.
  intros Ha Hb Hab Hba. split; [by apply (cycle_never_constructs _ _ _ a b ma mb)|].
  split; [|intros fuel p method s r s'; apply pp_cyclical_root].
  intros Hmethods Hdecl.
  assert (a <> b) as Hne.
  { destruct (_get_param_methods_spec cls) as [_ Hnd]. rewrite Hmethods in Hnd.
    apply NoDup_cons in Hnd as [Hnin _]. intros ->. apply Hnin. left. }
  unfold __init__. rewrite Hmethods. simpl length.
  cbn [for_items]. unfold bind at 1. rewrite pp_unfold. unfold bind at 1.
  cbn [chain_arg dependencies_of app].
  destruct (depends_on ma) as [|d1 l1] eqn:Hda; [by apply elem_of_nil in Hab|].
  destruct (depends_on mb) as [|d2 l2] eqn:Hdb; [by apply elem_of_nil in Hba|].
  cbn [for_deps].
  destruct (Hdecl d1) as [->| ->]; [apply elem_of_app; left; left|..].
  - by rewrite bool_decide_eq_true_2 by left.
  - rewrite bool_decide_eq_false_2
      by (rewrite list_elem_of_singleton; congruence).
    unfold bind at 1, not_in_param_vals at 1. cbn [new_store _param_vals].
    rewrite lookup_empty, bool_decide_eq_true_2 by done.
    unfold bind at 1. rewrite pp_unfold. unfold bind at 1.
    cbn [dict_get]. rewrite String.eqb_refl.
    destruct (String.eqb_spec b a) as [?|_]; [congruence|].
    cbn [chain_arg dependencies_of app]. rewrite Hdb. cbn [for_deps].
    rewrite bool_decide_eq_true_2; [done|].
    destruct (Hdecl d2) as [->| ->]; [apply elem_of_app; right; left|left|right; left].
Qed.

Lemma C6_witness :
  let x := mkHandler "x" ["y"] None None Examples.f_pass in
  let y := mkHandler "y" ["x"] None None Examples.f_pass in
  (declares [x; y] "x" x /\ declares [x; y] "y" y /\
   "y" ∈ depends_on x /\ "x" ∈ depends_on y /\
   _get_param_methods [x; y] = [("x", x); ("y", y)] /\
   (forall d, d ∈ depends_on x ++ depends_on y -> d = "x" \/ d = "y")) /\
  __init__ "Loop" [x; y] Examples.abcd = Raise (CyclicalDependencyError "x") new_store.
Proof.
  intros x y.
  assert (declares [x; y] "x" x) as H1 by reflexivity.
  assert (declares [x; y] "y" y) as H2 by reflexivity.
  assert ("y" ∈ depends_on x) as H3 by left.
  assert ("x" ∈ depends_on y) as H4 by left.
  assert (_get_param_methods [x; y] = [("x", x); ("y", y)]) as H5 by reflexivity.
  assert (forall d, d ∈ depends_on x ++ depends_on y -> d = "x" \/ d = "y") as H6.
  { intros d Hd. simpl in Hd.
    apply elem_of_cons in Hd as [->|Hd]; [by right|].
    apply list_elem_of_singleton in Hd as ->. by left. }
  split; [done|].
  apply (C6_cycle_never_constructs "Loop" [x; y] Examples.abcd "x" "y" x y H1 H2 H3 H4);
    done.
Defined.

(** C7, as the claim states it, fails: with [a] (typed [int]) and [b]
    both required, [a] supplied as a string and [b] omitted, construction
    raises the [ParameterTypeError] of [a], which the loop meets first, and
    not a [RequiredParameterError] naming [b].  And with both omitted the
    one exception raised names [a] only. *)
Lemma C7_counterexample :
  let cls := [Examples.typed_a; Examples.plain_b] in
  let kwargs : gmap string value := {["a" := VStr "one"]} in
  (declares cls "b" Examples.plain_b /\ default Examples.plain_b = None /\
   kwargs !! "b" = None /\ (∅ : gmap string value) !! "b" = None) /\
  __init__ "Pair" cls kwargs = Raise (ParameterTypeError "a" TInt) new_store /\
  __init__ "Pair" cls ∅ = Raise (RequiredParameterError "Pair" "a") new_store /\
  (forall s, __init__ "Pair" cls kwargs <> Raise (RequiredParameterError "Pair" "b") s) /\
  (forall s, __init__ "Pair" cls ∅ <> Raise (RequiredParameterError "Pair" "b") s).
Proof.
  intros cls kwargs. split; [repeat split|].
  split; [vm_compute; reflexivity|]. split; [vm_compute; reflexivity|].
  split; intros s; vm_compute; discriminate.
Qed.

(** C7, amended: for a declared parameter with no default that is omitted
    from the arguments, its [wrapper] raises [RequiredParameterError] naming
    the class and the parameter as soon as it is called; construction never
    succeeds: it raises, and the handler of the parameter has not run; and
    when the parameter is the first of [_param_methods] and has no
    dependencies, the exception construction raises is this
    [RequiredParameterError]. *)
Theorem C7_required_parameter (cls_name : string) (cls : list handler)
    (kwargs : gmap string value) (p : string) (m : handler) :
  declares cls p m ->
  default m = None ->
  kwargs !! p = None ->
  (forall s, wrapper cls_name kwargs m s = Raise (RequiredParameterError cls_name p) s) /\
  (exists e s, __init__ cls_name cls kwargs = Raise e s /\ (p ∉ calls s)) /\
  (forall rest, _get_param_methods cls = (p, m) :: rest -> depends_on m = [] ->
     __init__ cls_name cls kwargs = Raise (RequiredParameterError cls_name p) new_store).
Proof.
  intros Hdecl Hdef Hk. pose proof (declares_param _ _ _ Hdecl) as Hp.
  assert (forall s, wrapper cls_name kwargs m s = Raise (RequiredParameterError cls_name p) s)
    as Hw.
  { intros s. rewrite <-Hp. apply wrapper_required; [by rewrite Hp|done]. }
  split; [done|]. split; [by apply (failing_handler_stops _ _ _ _ m _ Hdecl Hw)|].
  intros rest Hm Hdeps. unfold __init__. rewrite Hm. cbn [for_items].
  unfold bind at 1. rewrite pp_unfold. unfold bind at 1.
  cbn [dependencies_of]. rewrite Hdeps. cbn [for_deps]. unfold ret at 1.
  unfold bind at 1. cbn [call_method]. by rewrite Hw.
Qed.

Lemma C7_witness :
  let cls := [Examples.plain_b; Examples.typed_a] in
  let kwargs : gmap string value := {["a" := VStr "one"]} in
  (declares cls "b" Examples.plain_b /\
   default Examples.plain_b = None /\ kwargs !! "b" = None /\
   _get_param_methods cls = [("b", Examples.plain_b); ("a", Examples.typed_a)] /\
   depends_on Examples.plain_b = []) /\
  __init__ "Pair" cls kwargs = Raise (RequiredParameterError "Pair" "b") new_store.
Proof.
  intros cls kwargs. split; [repeat split|].
  apply (C7_required_parameter "Pair" cls kwargs "b" Examples.plain_b eq_refl eq_refl eq_refl)
    with (rest := [("a", Examples.typed_a)]); reflexivity.
Defined.

(** C8, as the claim states it, fails: [port] has a default and is
    omitted, but it depends on [host], which is required and omitted too.
    Resolving [port] raises the [RequiredParameterError] of [host], in
    either order of the two handlers, and construction never succeeds. *)
Lemma C8_counterexample :
  let cls := [Examples.host; Examples.port] in
  (declares cls "port" Examples.port /\ default Examples.port = Some (VInt 80) /\
   (∅ : gmap string value) !! "port" = None) /\
  _process_param "Server" (_get_param_methods cls) ∅ 3 "port" (Some Examples.port) None
      new_store
    = Raise (RequiredParameterError "Server" "host") new_store /\
  __init__ "Server" cls ∅ = Raise (RequiredParameterError "Server" "host") new_store /\
  __init__ "Server" [Examples.port; Examples.host] ∅
    = Raise (RequiredParameterError "Server" "host") new_store /\
  (forall r s, __init__ "Server" cls ∅ <> Ok r s).
Proof.
  intros cls. split; [repeat split|].
  split; [vm_compute; reflexivity|]. split; [vm_compute; reflexivity|].
  split; [vm_compute; reflexivity|]. intros r s. vm_compute. discriminate.
Qed.

(** C8, amended: a declared parameter that has a default and is omitted
    from the arguments takes the default as its raw value, with no
    [isinstance] check whatever [ensure_type] says.  Its [wrapper] succeeds
    whenever the handler returns, and the only exception it can raise is the
    handler's own.  [_process_param] succeeds for it, storing [retval or
    default] as the attribute, when each of its dependencies has its entry
    in [_param_vals] and is not on the chain, and the handler returns.
    Construction never raises a [ParameterTypeError] naming the parameter,
    and after a successful construction the attribute is [retval or
    default]. *)
Theorem C8_default_bypasses_type_check (cls_name : string) (cls : list handler)
    (kwargs : gmap string value) (p : string) (m : handler) (dv : value) :
  declares cls p m ->
  default m = Some dv ->
  kwargs !! p = None ->
  (forall s, input_value cls_name kwargs m s = Ok dv s) /\
  (forall s retval, f m (attrs s) dv = Return retval ->
     wrapper cls_name kwargs m s = Ok VNone (stored m dv retval s)) /\
  (forall s e s', wrapper cls_name kwargs m s = Raise e s' ->
     exists msg, e = HandlerError msg /\ f m (attrs s) dv = Throw msg) /\
  (forall fuel chain s retval,
     (forall d, d ∈ depends_on m ->
        (d ∉ chain_arg chain ++ [p]) /\ is_Some (_param_vals s !! d)) ->
     f m (attrs s) dv = Return retval ->
     _process_param cls_name (_get_param_methods cls) kwargs (S fuel) p (Some m) chain s
       = Ok (chain_arg chain ++ [p])
            (mkStore (<[p := VNone]> (_param_vals s))
                     (<[p := py_or retval dv]> (attrs s))
                     (calls s ++ [p]))) /\
  (forall ty s, __init__ cls_name cls kwargs <> Raise (ParameterTypeError p ty) s) /\
  (forall r s, __init__ cls_name cls kwargs = Ok r s ->
     exists retval, attrs s !! p = Some (py_or retval dv)).
Proof.
  intros Hdecl Hd Hk. pose proof (declares_param _ _ _ Hdecl) as Hp.
  assert (forall s, input_value cls_name kwargs m s = Ok dv s) as Hin.
  { intros s. rewrite input_value_omitted by by rewrite Hp. by rewrite Hd. }
  assert (forall s e s', wrapper cls_name kwargs m s = Raise e s' ->
            exists msg, e = HandlerError msg /\ f m (attrs s) dv = Throw msg) as Hraise.
  { intros s e s'. rewrite wrapper_unfold, Hin.
    destruct (f m (attrs s) dv) as [r|msg]; [done|]. intros [= <- <-]. by exists msg. }
  assert (forall s retval, f m (attrs s) dv = Return retval ->
            wrapper cls_name kwargs m s = Ok VNone (stored m dv retval s)) as Hok.
  { intros s retval Hf. by rewrite wrapper_unfold, Hin, Hf. }
  split; [done|]. split; [done|]. split; [done|]. split; [|split].
  - intros fuel chain s retval Hdeps Hf. rewrite pp_unfold. unfold bind at 1.
    cbn [dependencies_of]. rewrite for_deps_skip by done.
    unfold bind at 1. cbn [call_method]. rewrite (Hok s retval Hf).
    unfold stored. by rewrite Hp.
  - apply (no_type_error_for cls_name cls kwargs p m Hdecl).
    intros s p' ty' s' Hw. by apply Hraise in Hw as (msg & [=] & _).
  - intros r s Hrun. by apply (default_attr cls_name cls kwargs p m dv r s).
Qed.

Lemma C8_witness :
  let m := mkHandler "port" [] (Some TInt) (Some (VStr "eighty")) Examples.f_pass in
  (declares [m] "port" m /\ default m = Some (VStr "eighty") /\
   (∅ : gmap string value) !! "port" = None /\
   ensure_type m = Some TInt /\ isinstance (VStr "eighty") TInt = false) /\
  wrapper "Server" ∅ m new_store = Ok VNone (stored m (VStr "eighty") VNone new_store) /\
  _process_param "Server" (_get_param_methods [m]) ∅ 1 "port" (Some m) None new_store
    = Ok ["port"] (mkStore (<["port" := VNone]> ∅) (<["port" := VStr "eighty"]> ∅) ["port"]) /\
  exists s, __init__ "Server" [m] ∅ = Ok tt s /\ attrs s !! "port" = Some (VStr "eighty").
Proof.
  intros m. split; [repeat split|].
  assert (declares [m] "port" m) as H1 by reflexivity.
  assert (default m = Some (VStr "eighty")) as H2 by reflexivity.
  assert ((∅ : gmap string value) !! "port" = None) as H3 by reflexivity.
  destruct (C8_default_bypasses_type_check "Server" [m] ∅ "port" m (VStr "eighty") H1 H2 H3)
    as (_ & Hw & _ & Hpp & _ & Hattr).
  split; [by apply Hw|]. split.
  - apply (Hpp 0%nat None new_store VNone); [|reflexivity].
    intros d Hd. by apply elem_of_nil in Hd.
  - eexists. split; vm_compute; reflexivity.
Defined.

(** C9, as the claim states it, fails: [b] must be an [int] and is supplied
    a string, but [a], required and omitted, is met first.  Construction
    raises the [RequiredParameterError] of [a] and no [ParameterTypeError]
    at all. *)
Lemma C9_counterexample :
  let cls := [Examples.plain_a; Examples.typed_b] in
  let kwargs : gmap string value := {["b" := VStr "two"]} in
  (declares cls "b" Examples.typed_b /\ ensure_type Examples.typed_b = Some TInt /\
   kwargs !! "b" = Some (VStr "two") /\ isinstance (VStr "two") TInt = false) /\
  __init__ "Pair" cls kwargs = Raise (RequiredParameterError "Pair" "a") new_store /\
  (forall p ty s, __init__ "Pair" cls kwargs <> Raise (ParameterTypeError p ty) s).
Proof.
  intros cls kwargs. split; [repeat split|].
  split; [vm_compute; reflexivity|]. intros p ty s. vm_compute. discriminate.
Qed.

(** C9, amended: for a declared parameter with a type constraint, a
    supplied value that is not an instance of the type makes [wrapper] raise
    [ParameterTypeError] naming the parameter and the type as soon as it is
    called; construction never succeeds: it raises, and the handler of the
    parameter has not run; [_process_param] raises this
    [ParameterTypeError] for the parameter when each of its dependencies
    has its entry in [_param_vals] and is not on the chain, and it is the
    exception construction raises when the parameter is the first of
    [_param_methods] and has no dependencies.  A supplied value that is an
    instance is accepted as the raw value, [wrapper] never raises
    [ParameterTypeError], and construction never raises one that names the
    parameter. *)
Theorem C9_type_enforcement (cls_name : string) (cls : list handler)
    (kwargs : gmap string value) (p : string) (m : handler) (ty : pytype) (val : value) :
  declares cls p m ->
  ensure_type m = Some ty ->
  kwargs !! p = Some val ->
  (isinstance val ty = false ->
     (forall s, wrapper cls_name kwargs m s = Raise (ParameterTypeError p ty) s) /\
     (exists e s, __init__ cls_name cls kwargs = Raise e s /\ (p ∉ calls s)) /\
     (forall fuel chain s,
        (forall d, d ∈ depends_on m ->
           (d ∉ chain_arg chain ++ [p]) /\ is_Some (_param_vals s !! d)) ->
        _process_param cls_name (_get_param_methods cls) kwargs (S fuel) p (Some m) chain s
          = Raise (ParameterTypeError p ty) s) /\
     (forall rest, _get_param_methods cls = (p, m) :: rest -> depends_on m = [] ->
        __init__ cls_name cls kwargs = Raise (ParameterTypeError p ty) new_store)) /\
  (isinstance val ty = true ->
     (forall s, input_value cls_name kwargs m s = Ok val s) /\
     (forall s p' ty' s',
        wrapper cls_name kwargs m s <> Raise (ParameterTypeError p' ty') s') /\
     (forall ty' s, __init__ cls_name cls kwargs <> Raise (ParameterTypeError p ty') s)).
Proof.
  intros Hdecl Hty Hk. pose proof (declares_param _ _ _ Hdecl) as Hp.
  assert (forall s, input_value cls_name kwargs m s =
            if isinstance val ty then Ok val s else Raise (ParameterTypeError p ty) s) as Hin.
  { intros s. rewrite (input_value_supplied _ _ _ val) by by rewrite Hp.
    by rewrite Hty, Hp. }
  split; intros Hinst; rewrite Hinst in Hin.
  - assert (forall s, wrapper cls_name kwargs m s = Raise (ParameterTypeError p ty) s) as Hw.
    { intros s. by rewrite wrapper_unfold, Hin. }
    assert (forall fuel chain s,
              (forall d, d ∈ depends_on m ->
                 (d ∉ chain_arg chain ++ [p]) /\ is_Some (_param_vals s !! d)) ->
              _process_param cls_name (_get_param_methods cls) kwargs (S fuel) p (Some m)
                chain s = Raise (ParameterTypeError p ty) s) as Hpp.
    { intros fuel chain s Hdeps. rewrite pp_unfold. unfold bind at 1.
      cbn [dependencies_of]. rewrite for_deps_skip by done.
      unfold bind at 1. cbn [call_method]. by rewrite Hw. }
    split; [done|]. split; [by apply (failing_handler_stops _ _ _ _ m _ Hdecl Hw)|].
    split; [done|].
    intros rest Hm Hdeps. unfold __init__. rewrite Hm in Hpp |- *. cbn [for_items].
    unfold bind at 1. rewrite Hpp; [done|].
    intros d Hd. rewrite Hdeps in Hd. by apply elem_of_nil in Hd.
  - assert (forall s p' ty' s',
              wrapper cls_name kwargs m s <> Raise (ParameterTypeError p' ty') s') as Hw.
    { intros s p' ty' s'. rewrite wrapper_unfold, Hin. by destruct (f m (attrs s) val). }
    split; [done|]. split; [done|]. by apply (no_type_error_for cls_name cls kwargs p m).
Qed.

Lemma C9_witness :
  let cls := [Examples.age; Examples.can_vote; Examples.first_name] in
  let twelve : gmap string value := <["age" := VStr "twelve"]> Examples.kid in
  (declares cls "age" Examples.age /\ ensure_type Examples.age = Some TInt /\
   twelve !! "age" = Some (VStr "twelve") /\ isinstance (VStr "twelve") TInt = false /\
   Examples.kid !! "age" = Some (VInt 12) /\ isinstance (VInt 12) TInt = true /\
   _get_param_methods cls
     = [("age", Examples.age); ("can_vote", Examples.can_vote);
        ("first_name", Examples.first_name)] /\
   depends_on Examples.age = []) /\
  wrapper "Person" twelve Examples.age new_store
    = Raise (ParameterTypeError "age" TInt) new_store /\
  __init__ "Person" cls twelve = Raise (ParameterTypeError "age" TInt) new_store /\
  input_value "Person" Examples.kid Examples.age new_store = Ok (VInt 12) new_store.
Proof.
  intros cls twelve. split; [repeat split|].
  destruct (C9_type_enforcement "Person" cls twelve "age" Examples.age TInt (VStr "twelve")
              eq_refl eq_refl eq_refl) as [Hwrong _].
  destruct (Hwrong eq_refl) as (Hw & _ & _ & Hfirst).
  split; [by apply Hw|]. split.
  - apply Hfirst
      with (rest := [("can_vote", Examples.can_vote); ("first_name", Examples.first_name)]);
      reflexivity.
  - apply (C9_type_enforcement "Person" cls Examples.kid "age" Examples.age TInt (VInt 12));
      reflexivity.
Defined.

(** C10: two argument mappings that agree on every declared parameter name
    give the same construction: the same outcome, the same exception if
    any, the same store.  The attributes a construction sets all bear the
    name of a declared parameter, so a key of the arguments that names no
    parameter never becomes an attribute. *)
Theorem C10_unknown_keys_ignored (cls_name : string) (cls : list handler)
    (kwargs1 kwargs2 : gmap string value) :
  (forall m, m ∈ cls -> kwargs1 !! param m = kwargs2 !! param m) ->
  __init__ cls_name cls kwargs1 = __init__ cls_name cls kwargs2 /\
  (forall s k, final_store (__init__ cls_name cls kwargs1) = Some s ->
     is_Some (attrs s !! k) -> exists m, m ∈ cls /\ param m = k).
Proof.
  intros Hagree. split.
  - unfold __init__. apply for_items_agree.
    + intros k m Hget%dict_get_Some_elem. by apply Hagree, (_get_param_methods_elem cls k).
    + intros k m Hin. by apply Hagree, (_get_param_methods_elem cls k).
  - intros s k Hfinal.
    pose proof (attrs_declared cls_name cls kwargs1) as Hinv. unfold wp, __init__ in *.
    destruct (for_items _ _ _ _ _ new_store) as [r s1|e s1|]; simpl in Hfinal;
      [| |done]; injection Hfinal as ->; apply Hinv.
Qed.

Lemma C10_witness :
  let cls := [Examples.age; Examples.can_vote; Examples.first_name] in
  let kwargs2 : gmap string value := <["nickname" := VStr "K"]> Examples.kid in
  (forall m, m ∈ cls -> Examples.kid !! param m = kwargs2 !! param m) /\
  __init__ "Person" cls Examples.kid = __init__ "Person" cls kwargs2.
Proof.
  intros cls kwargs2.
  assert (forall m, m ∈ cls -> Examples.kid !! param m = kwargs2 !! param m) as Hagree.
  { intros m Hm. repeat (apply elem_of_cons in Hm as [->|Hm]; [reflexivity|]).
    by apply elem_of_nil in Hm. }
  split; [done|].
  apply (C10_unknown_keys_ignored "Person" cls Examples.kid kwargs2 Hagree).
Defined.

(** ** Module names of [load_config] *)

Lemma rfind_has_char (c : Ascii.ascii) (s : string) :
  (rfind c s = -1 <-> has_char c s = false) /\ -1 <= rfind c s.
Proof.
  induction s as [|a rest [IH1 IH2]]; simpl; [done|].
  destruct (Z.eqb_spec (rfind c rest) (-1)) as [Heq|Hne].
  - rewrite (proj1 IH1 Heq), orb_false_r. destruct (Ascii.eqb a c); split; (done || lia).
  - split; [|lia]. split; [lia|]. intros [_ H]%orb_false_iff. by apply IH1 in H.
Qed.

Lemma basename_cons (a : Ascii.ascii) (rest : string) :
  basename (String a rest) =
    if has_char "/"%char rest then basename rest
    else if Ascii.eqb a "/"%char then rest else String a rest.
Proof.
  unfold basename. simpl rfind.
  destruct (rfind_has_char "/"%char rest) as [Hiff Hge].
  destruct (Z.eqb_spec (rfind "/"%char rest) (-1)) as [Heq|Hne].
  - rewrite (proj1 Hiff Heq). by destruct (Ascii.eqb a "/"%char).
  - destruct (has_char "/"%char rest) eqn:Hc; [|exfalso; apply Hne; by apply Hiff].
    replace (Z.to_nat (rfind "/"%char rest + 1 + 1))
      with (S (Z.to_nat (rfind "/"%char rest + 1))) by lia.
    done.
Qed.

Lemma basename_no_slash (p : string) : has_char "/"%char (basename p) = false.
Proof.
  induction p as [|a rest IH]; [done|]. rewrite basename_cons.
  destruct (has_char "/"%char rest) eqn:Hc; [done|].
  destruct (Ascii.eqb a "/"%char) eqn:Ha; [done|]. simpl. by rewrite Ha, Hc.
Qed.

Lemma has_char_app (c : Ascii.ascii) (s t : string) :
  has_char c (s ++ t) = has_char c s || has_char c t.
Proof. induction s as [|a s IH]; simpl; [done|]. by rewrite IH, orb_assoc. Qed.

Lemma append_cons (a : Ascii.ascii) (s t : string) :
  (String a s ++ t = String a (s ++ t))%string.
Proof. done. Qed.

Lemma basename_app (dir name : string) :
  has_char "/"%char name = false -> basename (dir ++ String "/"%char name) = name.
Proof.
  intros Hname. induction dir as [|a dir IH].
  - change (basename (String "/"%char name) = name). by rewrite basename_cons, Hname.
  - rewrite append_cons, basename_cons, has_char_app. simpl has_char.
    by rewrite orb_true_r.
Qed.

Lemma basename_plain (name : string) :
  has_char "/"%char name = false -> basename name = name.
Proof.
  intros Hname. destruct name as [|a rest]; [done|]. rewrite basename_cons.
  simpl in Hname. apply orb_false_iff in Hname as [Ha Hrest]. by rewrite Hrest, Ha.
Qed.

Lemma split_cons_part (sep : Ascii.ascii) (s : string) :
  exists part parts, split sep s = part :: parts /\ has_char sep part = false /\
    (forall c, has_char c s = false -> has_char c part = false).
Proof.
  induction s as [|a rest (part & parts & Heq & Hsep & Hsub)]; simpl.
  - by exists EmptyString, [].
  - destruct (Ascii.eqb a sep) eqn:Ha.
    + by exists EmptyString, (split sep rest).
    + rewrite Heq. exists (String a part), parts. simpl. rewrite Ha, Hsep.
      split; [done|]. split; [done|].
      intros c [Hc Hrest]%orb_false_iff. by rewrite Hc, Hsub.
Qed.

Lemma split_app (sep : Ascii.ascii) (name ext : string) :
  has_char sep name = false ->
  split sep (name ++ String sep ext) = name :: split sep ext.
Proof.
  induction name as [|a name IH].
  - intros _. change (split sep (String sep ext) = "" :: split sep ext).
    simpl. by rewrite Ascii.eqb_refl.
  - intros [Ha Hname]%orb_false_iff. rewrite append_cons. simpl split.
    by rewrite Ha, IH.
Qed.

Lemma split_plain (sep : Ascii.ascii) (name : string) :
  has_char sep name = false -> split sep name = [name].
Proof.
  induction name as [|a name IH]; simpl; [done|].
  intros [Ha Hname]%orb_false_iff. rewrite Ha. by rewrite IH.
Qed.

(** ** The store only grows *)

Lemma grows_refl (s : store) : grows s s.
Proof. by repeat split. Qed.

Lemma grows_trans (s1 s2 s3 : store) : grows s1 s2 -> grows s2 s3 -> grows s1 s3.
Proof.
  intros (H1 & H2 & H3) (H1' & H2' & H3'). repeat split; [auto..|by etrans].
Qed.

Section Grows.
Variable cls_name : string.
Variable methods : list (string * handler).
Variable kwargs : gmap string value.

Lemma wrapper_grows m s :
  wp (wrapper cls_name kwargs m) s (fun _ s' => grows s s') (fun _ s' => grows s s') False.
Proof.
  unfold wp. rewrite wrapper_unfold.
  pose proof (input_value_store cls_name kwargs m s) as Hst. unfold wp in Hst.
  destruct (input_value cls_name kwargs m s) as [val s1|e s1|];
    [subst s1|subst s1; apply grows_refl|done].
  destruct (f m (attrs s) val) as [retval|]; unfold stored; repeat split; simpl; try done;
    try (by apply prefix_app_r).
  intros k Hk. rewrite lookup_insert_is_Some. destruct (decide (param m = k)); auto.
Qed.

Lemma pp_grows fuel p method chain s :
  wp (_process_param cls_name methods kwargs fuel p method chain) s
     (fun _ s' => grows s s') (fun _ s' => grows s s' /\ True) True.
Proof.
  apply (pp_inv cls_name methods kwargs (fun s' => grows s s') (fun _ => True)
           (fun _ => True)); try done.
  - intros m s1 _ Hs1.
    eapply wp_conseq; [apply (wrapper_grows m s1)| | |done].
    + intros r s2 H. by apply (grows_trans s s1 s2).
    + intros e s2 H. split; [|done]. by apply (grows_trans s s1 s2).
  - intros k v s1 (H1 & H2 & H3). repeat split; simpl; [|done..].
    intros k' Hk'. rewrite lookup_insert_is_Some. destruct (decide (k = k')); auto.
Qed.

Lemma for_items_grows fuel items s :
  wp (for_items cls_name methods kwargs fuel items) s
     (fun _ s' => grows s s') (fun _ s' => grows s s' /\ True) True.
Proof.
  apply (for_items_inv cls_name methods kwargs (fun s' => grows s s') (fun _ => True)
           (fun _ => True)); try done.
  - intros m s1 _ Hs1.
    eapply wp_conseq; [apply (wrapper_grows m s1)| | |done].
    + intros r s2 H. by apply (grows_trans s s1 s2).
    + intros e s2 H. split; [|done]. by apply (grows_trans s s1 s2).
  - intros k v s1 (H1 & H2 & H3). repeat split; simpl; [|done..].
    intros k' Hk'. rewrite lookup_insert_is_Some. destruct (decide (k = k')); auto.
Qed.

(** When the loop over the dependencies comes to its end, each of them has
    an entry in [_param_vals]. *)
Lemma for_deps_resolved rec deps : forall (chain : list string) s,
  (forall d dm c s', wp (rec d dm c) s' (fun _ s2 => grows s' s2) (fun _ s2 => grows s' s2) True) ->
  wp (for_deps cls_name methods rec deps chain) s
     (fun _ s' => grows s s' /\ forall d, d ∈ deps -> is_Some (_param_vals s' !! d))
     (fun _ s' => grows s s') True.
Proof.
  induction deps as [|d deps IH]; intros chain s Hrec; simpl.
  - apply wp_ret. split; [apply grows_refl|]. intros d Hd. by apply elem_of_nil in Hd.
  - case_bool_decide as Hin.
    + destruct chain; simpl; apply wp_bind; [apply wp_raise, grows_refl|].
      apply wp_ret, wp_raise, grows_refl.
    + assert (forall c' s', grows s s' ->
        wp (failed <~ not_in_param_vals d ;;
            if failed : bool
            then raise (RequiredParameterError cls_name d)
            else for_deps cls_name methods rec deps c')%py s'
           (fun _ s2 => grows s s2 /\ forall d0, d0 ∈ d :: deps -> is_Some (_param_vals s2 !! d0))
           (fun _ s2 => grows s s2) True) as Hnext.
      { intros c' s' Hs'. apply wp_bind. unfold wp at 1, not_in_param_vals.
        case_bool_decide as Hd; [by apply wp_raise|].
        eapply wp_conseq; [by apply IH| | |done].
        - intros c2 s2 [Hg Hdeps]. simpl. split; [by apply (grows_trans s s' s2)|].
          intros d0 [->|Hd0]%elem_of_cons; [|by apply Hdeps].
          apply Hg. by destruct (_param_vals s' !! d); [eexists|].
        - intros e s2 Hg. by apply (grows_trans s s' s2). }
      apply wp_bind. unfold wp at 1, not_in_param_vals. apply wp_bind.
      case_bool_decide as Hd.
      * eapply wp_conseq; [apply Hrec| |done|done].
        intros c' s' Hg. by apply Hnext.
      * apply wp_ret, Hnext, grows_refl.
Qed.
End Grows.

(** ** Invariants that rely on the dependencies being resolved *)

Section Keyed.
Variable cls_name : string.
Variable methods : list (string * handler).
Variable kwargs : gmap string value.
Variable Inv : store -> Prop.

(** The handler of [p] is called with its dependencies resolved, and line
    162 stores what it returns under [p]. *)
Hypothesis wrapper_keeps : forall p m s,
  dict_get p methods = Some m -> Inv s ->
  (forall d, d ∈ depends_on m -> is_Some (_param_vals s !! d)) ->
  wp (wrapper cls_name kwargs m) s
     (fun r s' => Inv (mkStore (<[p := r]> (_param_vals s')) (attrs s') (calls s')))
     (fun _ s' => Inv s') True.

Lemma for_deps_keyed rec deps : forall (chain : list string) s,
  (forall d c s', Inv s' ->
     wp (rec d (dict_get d methods) c) s' (fun _ s2 => Inv s2) (fun _ s2 => Inv s2) True) ->
  Inv s ->
  wp (for_deps cls_name methods rec deps chain) s (fun _ s' => Inv s') (fun _ s' => Inv s') True.
Proof.
  induction deps as [|d deps IH]; intros chain s Hrec Hs; simpl; [done|].
  case_bool_decide as Hin.
  - destruct chain; simpl; apply wp_bind; [by apply wp_raise|]. by apply wp_ret, wp_raise.
  - assert (forall c' s', Inv s' ->
      wp (failed <~ not_in_param_vals d ;;
          if failed : bool
          then raise (RequiredParameterError cls_name d)
          else for_deps cls_name methods rec deps c')%py s'
         (fun _ s2 => Inv s2) (fun _ s2 => Inv s2) True) as Hnext.
    { intros c' s' Hs'. apply wp_bind. unfold wp at 1, not_in_param_vals.
      case_bool_decide; [by apply wp_raise|]. by apply IH. }
    apply wp_bind. unfold wp at 1, not_in_param_vals. apply wp_bind.
    case_bool_decide.
    + eapply wp_conseq; [by apply Hrec| |done|done]. intros c' s' Hs'. by apply Hnext.
    + by apply wp_ret, Hnext.
Qed.

Lemma pp_keyed fuel : forall p chain s,
  Inv s ->
  wp (_process_param cls_name methods kwargs fuel p (dict_get p methods) chain) s
     (fun _ s' => Inv s') (fun _ s' => Inv s') True.
Proof.
  induction fuel as [|fuel IH]; intros p chain s Hs; [done|].
  rewrite pp_unfold. apply wp_bind.
  eapply wp_conseq;
    [apply wp_and;
       [apply for_deps_keyed; [|done]
       |apply (for_deps_resolved cls_name methods
                 (fun d dm c => _process_param cls_name methods kwargs fuel d dm (Some c)))]
    | |by intros e s' [H _]|done].
  - intros d c s' Hs'. by apply IH.
  - intros d dm c s'.
    eapply wp_conseq; [apply pp_grows|done|by intros e s2 [H _]|done].
  - intros c' s' [Hs' [_ Hdeps]]. simpl. apply wp_bind.
    destruct (dict_get p methods) as [m|] eqn:Hm; [|by apply wp_raise].
    eapply wp_conseq; [by apply (wrapper_keeps p m s')| |done|done].
    intros r s2 Hs2. simpl. apply wp_bind. unfold wp at 1, set_param_val. by apply wp_ret.
Qed.

Lemma for_items_keyed fuel items : forall s,
  (forall k m, (k, m) ∈ items -> dict_get k methods = Some m) ->
  Inv s ->
  wp (for_items cls_name methods kwargs fuel items) s
     (fun _ s' => Inv s') (fun _ s' => Inv s') True.
Proof.
  induction items as [|[k m] items IH]; intros s Hitems Hs; simpl; [done|].
  apply wp_bind. rewrite <-(Hitems k m) by left.
  eapply wp_conseq; [by apply pp_keyed| |done|done].
  intros c' s' Hs'. apply IH; [|done]. intros k' m' Hin. apply Hitems. by right.
Qed.
End Keyed.

(** The same for a whole construction. *)
Lemma init_keyed (cls_name : string) (cls : list handler) (kwargs : gmap string value)
    (Inv : store -> Prop) :
  (forall p m s,
     declares cls p m -> Inv s ->
     (forall d, d ∈ depends_on m -> is_Some (_param_vals s !! d)) ->
     wp (wrapper cls_name kwargs m) s
        (fun r s' => Inv (mkStore (<[p := r]> (_param_vals s')) (attrs s') (calls s')))
        (fun _ s' => Inv s') True) ->
  Inv new_store ->
  forall s, final_store (__init__ cls_name cls kwargs) = Some s -> Inv s.
Proof.
  intros Hw H0 s Hfinal. destruct (_get_param_methods_spec cls) as [_ Hnd].
  pose proof (for_items_keyed cls_name (_get_param_methods cls) kwargs Inv Hw
                (S (length (_get_param_methods cls))) (_get_param_methods cls) new_store)
    as H.
  unfold __init__, wp in *.
  destruct (for_items _ _ _ _ _ new_store) as [r s1|e s1|]; simpl in Hfinal; [| |done];
    injection Hfinal as ->; apply H; try done; intros k m Hin; by apply dict_elem_get.
Qed.

(** A handler stored under its own name keeps [self] consistent. *)
Lemma wrapper_consistent (cls_name : string) (methods : list (string * handler))
    (kwargs : gmap string value) p m s :
  dict_get p methods = Some m -> param m = p -> consistent methods s ->
  wp (wrapper cls_name kwargs m) s
     (fun r s' => consistent methods
                    (mkStore (<[p := r]> (_param_vals s')) (attrs s') (calls s')))
     (fun _ s' => consistent methods s') True.
Proof.
  intros Hget Hp (Hva & Hac & Hck & Hnone).
  pose proof (dict_get_Some_key _ _ _ Hget) as Hkey.
  unfold wp. rewrite wrapper_unfold.
  pose proof (input_value_store cls_name kwargs m s) as Hst. unfold wp in Hst.
  destruct (input_value cls_name kwargs m s) as [val s1|e s1|];
    [subst s1|by subst s1|done].
  assert (forall k, k ∈ calls s ++ [p] -> k ∈ dict_keys methods) as Hkeys.
  { intros k [Hk|Hk]%elem_of_app; [by apply Hck|].
    by apply list_elem_of_singleton in Hk as ->. }
  assert (forall k, is_Some (attrs s !! k) -> k ∈ calls s ++ [p]) as Hold.
  { intros k Hk. apply elem_of_app. left. by apply Hac. }
  destruct (f m (attrs s) val) as [retval|]; unfold consistent, stored; simpl;
    rewrite Hp; repeat split; try done.
  - intros k. rewrite !lookup_insert_is_Some.
    intros [->|[Hne Hk]]; [by left|]. right. split; [done|]. by apply Hva.
  - intros k. rewrite lookup_insert_is_Some.
    intros [->|[Hne Hk]]; [|by apply Hold]. apply elem_of_app. right. left.
  - intros k v. destruct (decide (p = k)) as [->|Hne].
    + rewrite lookup_insert_eq. by intros [= <-].
    + rewrite lookup_insert_ne by done. apply Hnone.
Qed.

Lemma consistent_new (methods : list (string * handler)) : consistent methods new_store.
Proof.
  unfold consistent, new_store. simpl. repeat split.
  - intros k [v Hv]. by rewrite lookup_empty in Hv.
  - intros k [v Hv]. by rewrite lookup_empty in Hv.
  - intros k Hk. by apply elem_of_nil in Hk.
  - intros k v Hv. by rewrite lookup_empty in Hv.
Qed.

(** [self] stays consistent. *)
Lemma init_consistent (cls_name : string) (cls : list handler) (kwargs : gmap string value) s :
  final_store (__init__ cls_name cls kwargs) = Some s ->
  consistent (_get_param_methods cls) s.
Proof.
  apply (init_keyed cls_name cls kwargs (consistent (_get_param_methods cls))).
  - intros p m s0 Hdecl Hs0 _.
    by apply wrapper_consistent; [|apply (declares_param cls)|].
  - apply consistent_new.
Qed.

(** ** A handler finds the attributes of its dependencies *)

Lemma dict_get_map {V W : Type} (g : V -> W) (k : string) (d : list (string * V)) :
  dict_get k (map (fun kv => (kv.1, g kv.2)) d) = g <$> dict_get k d.
Proof.
  induction d as [|[k1 v1] d IH]; simpl; [done|]. by destruct (String.eqb k k1).
Qed.

Lemma dict_set_map {V W : Type} (g : V -> W) (k : string) (v : V) (d : list (string * V)) :
  dict_set k (g v) (map (fun kv => (kv.1, g kv.2)) d)
    = map (fun kv => (kv.1, g kv.2)) (dict_set k v d).
Proof.
  induction d as [|[k1 v1] d IH]; simpl; [done|].
  destruct (String.eqb k k1); simpl; [done|]. by rewrite IH.
Qed.

Lemma _get_param_methods_guard (cls : list handler) :
  _get_param_methods (map guard cls)
    = map (fun kv => (kv.1, guard kv.2)) (_get_param_methods cls).
Proof.
  unfold _get_param_methods.
  change (@nil (string * handler))
    with (map (fun kv : string * handler => (kv.1, guard kv.2)) []) at 1.
  generalize (@nil (string * handler)) as d.
  induction cls as [|m cls IH]; intros d; simpl; [done|].
  rewrite <-IH. f_equal. apply (dict_set_map guard (param m) m d).
Qed.

Section Guard.
Variable cls_name : string.
Variable methods : list (string * handler).
Variable kwargs : gmap string value.
Hypothesis keyed : forall k m, dict_get k methods = Some m -> param m = k.

Local Abbreviation guarded := (map (fun kv : string * handler => (kv.1, guard kv.2)) methods).

Lemma wrapper_guard m s :
  (forall d, d ∈ depends_on m -> is_Some (attrs s !! d)) ->
  wrapper cls_name kwargs (guard m) s = wrapper cls_name kwargs m s.
Proof.
  intros Hdeps. rewrite !wrapper_unfold.
  change (input_value cls_name kwargs (guard m) s) with (input_value cls_name kwargs m s).
  pose proof (input_value_store cls_name kwargs m s) as Hst. unfold wp in Hst.
  destruct (input_value cls_name kwargs m s) as [val s1|e s1|]; [subst s1|done..].
  assert (deps_present m (attrs s) = true) as Hp.
  { unfold deps_present. apply forallb_forall. intros d Hd%list_elem_of_In.
    by apply bool_decide_eq_true_2, Hdeps. }
  simpl. by rewrite Hp.
Qed.

Lemma for_deps_guard rec' rec deps : forall (chain : list string) s,
  consistent methods s ->
  (forall d c s', consistent methods s' ->
     rec' d (guard <$> dict_get d methods) c s' = rec d (dict_get d methods) c s') ->
  (forall d c s', consistent methods s' ->
     wp (rec d (dict_get d methods) c) s'
        (fun _ s2 => consistent methods s2) (fun _ _ => True) True) ->
  for_deps cls_name guarded rec' deps chain s = for_deps cls_name methods rec deps chain s.
Proof.
  induction deps as [|d deps IH]; intros chain s Hs Heq Hrec; simpl; [done|].
  case_bool_decide; [done|]. rewrite dict_get_map.
  unfold bind, not_in_param_vals. case_bool_decide.
  - rewrite Heq by done. pose proof (Hrec d chain s Hs) as Hr. unfold wp in Hr.
    destruct (rec d (dict_get d methods) chain s) as [c' s'| |]; [|done..].
    case_bool_decide; [done|]. by apply IH.
  - unfold ret. case_bool_decide; [done|]. by apply IH.
Qed.

Lemma pp_consistent fuel p chain s :
  consistent methods s ->
  wp (_process_param cls_name methods kwargs fuel p (dict_get p methods) chain) s
     (fun _ s' => consistent methods s') (fun _ s' => consistent methods s') True.
Proof.
  apply (pp_keyed cls_name methods kwargs (consistent methods)).
  intros p0 m s0 Hget Hs0 _. apply wrapper_consistent; [done|by apply keyed|done].
Qed.

Lemma pp_guard fuel : forall p chain s,
  consistent methods s ->
  _process_param cls_name guarded kwargs fuel p (guard <$> dict_get p methods) chain s =
  _process_param cls_name methods kwargs fuel p (dict_get p methods) chain s.
Proof.
  induction fuel as [|fuel IH]; intros p chain s Hs; [done|].
  rewrite !pp_unfold.
  replace (dependencies_of (guard <$> dict_get p methods))
    with (dependencies_of (dict_get p methods)) by by destruct (dict_get p methods).
  apply bind_ext_on.
  - apply for_deps_guard; [done| |].
    + intros d c s' Hs'. by apply IH.
    + intros d c s' Hs'.
      eapply wp_conseq; [by apply pp_consistent|done..].
  - intros c' s' Hrun.
    pose proof (for_deps_keyed cls_name methods (consistent methods)
                  (fun d dm c => _process_param cls_name methods kwargs fuel d dm (Some c))
                  (dependencies_of (dict_get p methods)) (chain_arg chain ++ [p]) s) as H1.
    pose proof (for_deps_resolved cls_name methods
                  (fun d dm c => _process_param cls_name methods kwargs fuel d dm (Some c))
                  (dependencies_of (dict_get p methods)) (chain_arg chain ++ [p]) s) as H2.
    unfold wp in H1, H2. rewrite Hrun in H1, H2.
    assert (consistent methods s') as Hs'.
    { apply H1; [|done]. intros d c s0 Hs0. by apply pp_consistent. }
    destruct H2 as [_ Hdeps].
    { intros d dm c s0.
      eapply wp_conseq; [apply pp_grows|done|by intros e s2 [H _]|done]. }
    apply bind_ext; [|done].
    destruct (dict_get p methods) as [m|]; simpl; [|done].
    apply wrapper_guard. intros d Hd. destruct Hs' as [Hva _]. by apply Hva, Hdeps.
Qed.

Lemma for_items_guard fuel items : forall s,
  (forall k m, (k, m) ∈ items -> dict_get k methods = Some m) ->
  consistent methods s ->
  for_items cls_name guarded kwargs fuel (map (fun kv => (kv.1, guard kv.2)) items) s =
  for_items cls_name methods kwargs fuel items s.
Proof.
  induction items as [|[k m] items IH]; intros s Hitems Hs; simpl; [done|].
  pose proof (Hitems k m (list_elem_of_here _ _)) as Hget.
  pose proof (pp_guard fuel k None s Hs) as Hpp. rewrite Hget in Hpp. simpl in Hpp.
  apply bind_ext_on; [done|].
  intros c' s' Hrun. apply IH.
  - intros k' m' Hin. apply Hitems. by right.
  - pose proof (pp_consistent fuel k None s Hs) as Hc. unfold wp in Hc.
    by rewrite Hget, Hrun in Hc.
Qed.
End Guard.

(** ** Classes listed in dependency order *)

Lemma dict_key_get {V : Type} (k : string) (d : list (string * V)) :
  k ∈ dict_keys d -> is_Some (dict_get k d).
Proof.
  unfold dict_keys. induction d as [|[k1 v1] d IH]; simpl.
  - intros H. by apply elem_of_nil in H.
  - destruct (String.eqb_spec k k1) as [->|Hk]; [by eexists|].
    intros [?|?]%elem_of_cons; [done|by apply IH].
Qed.

Lemma dict_set_fresh {V : Type} (k : string) (v : V) (d : list (string * V)) :
  k ∉ dict_keys d -> dict_set k v d = d ++ [(k, v)].
Proof.
  unfold dict_keys. induction d as [|[k1 v1] d IH]; simpl; [done|].
  intros [Hne Hnin]%not_elem_of_cons.
  destruct (String.eqb_spec k k1); [done|]. by rewrite IH.
Qed.

Lemma _get_param_methods_distinct (cls : list handler) :
  NoDup (map param cls) ->
  _get_param_methods cls = map (fun m => (param m, m)) cls.
Proof.
  unfold _get_param_methods.
  cut (forall d : list (string * handler),
        NoDup (dict_keys d ++ map param cls) ->
        fold_left (fun methods attr => dict_set (param attr) attr methods) cls d
          = d ++ map (fun m => (param m, m)) cls).
  { intros H Hnd. by apply (H []). }
  induction cls as [|m cls IH]; intros d Hnd; simpl; [by rewrite app_nil_r|].
  simpl in Hnd. apply NoDup_app in Hnd as (Hd & Hdisj & Hcls).
  apply NoDup_cons in Hcls as [Hm Hcls].
  rewrite dict_set_fresh by (intros Hin; apply (Hdisj _ Hin); left).
  rewrite IH, <-app_assoc; [done|].
  unfold dict_keys. rewrite map_app. simpl. rewrite <-app_assoc. simpl.
  apply NoDup_app. split; [done|]. split; [|by apply NoDup_cons].
  intros k Hk. by apply Hdisj.
Qed.

Lemma dependency_ordered_NoDup (cls : list handler) : forall seen,
  dependency_ordered seen cls = true ->
  NoDup (map param cls) /\ forall m, m ∈ cls -> param m ∉ seen.
Proof.
  induction cls as [|m cls IH]; intros seen; simpl.
  - intros _. split; [apply NoDup_nil_2|]. intros m Hm. by apply elem_of_nil in Hm.
  - intros [[Hm _]%andb_true_iff Hrest]%andb_true_iff.
    apply bool_decide_eq_true_1 in Hm. destruct (IH _ Hrest) as [Hnd Hnin].
    split.
    + apply NoDup_cons. split; [|done].
      intros (m' & Heq & Hin)%list_elem_of_fmap. apply (Hnin m' Hin).
      apply elem_of_app. right. rewrite Heq. left.
    + intros m' [->|Hin]%elem_of_cons; [done|].
      intros Hs. apply (Hnin m' Hin). apply elem_of_app. by left.
Qed.

(** The loop of [__init__] over handlers listed after their dependencies:
    no recursion, each handler called once, in the order of the list. *)
Lemma for_items_ordered (cls_name : string) (methods : list (string * handler))
    (kwargs : gmap string value) fuel (cls : list handler) : forall seen s,
  dependency_ordered seen cls = true ->
  calls s = seen ->
  (forall k, k ∈ seen -> is_Some (_param_vals s !! k)) ->
  wp (for_items cls_name methods kwargs (S fuel) (map (fun m => (param m, m)) cls)) s
     (fun _ s' => calls s' = seen ++ map param cls)
     (fun e s' => calls s' `prefix_of` seen ++ map param cls /\
                  exists m s1, m ∈ cls /\ wrapper cls_name kwargs m s1 = Raise e s')
     False.
Proof.
  induction cls as [|m cls IH]; intros seen s Hord Hcalls Hvals; simpl.
  - apply wp_ret. by rewrite app_nil_r.
  - apply andb_true_iff in Hord as [[Hm Hdeps]%andb_true_iff Hrest].
    apply bool_decide_eq_true_1 in Hm.
    assert (forall d, d ∈ depends_on m -> d ∈ seen) as Hseen.
    { intros d Hd%list_elem_of_In. rewrite forallb_forall in Hdeps.
      apply Hdeps in Hd. by apply bool_decide_eq_true_1 in Hd. }
    apply wp_bind. unfold wp at 1. unfold bind at 1.
    rewrite for_deps_skip.
    2: { intros d Hd. split; [|by apply Hvals, Hseen]. simpl.
         rewrite list_elem_of_singleton. intros ->. by apply Hm, Hseen. }
    unfold bind at 1. simpl call_method.
    pose proof (wrapper_grows cls_name kwargs m s) as Hg. unfold wp in Hg.
    destruct (wrapper cls_name kwargs m s) as [r s1|e s1|] eqn:Hw; [| |done].
    + rewrite wrapper_unfold in Hw.
      pose proof (input_value_store cls_name kwargs m s) as Hst. unfold wp in Hst.
      destruct (input_value cls_name kwargs m s) as [val s0| |]; [subst s0|done..].
      destruct (f m (attrs s) val) as [retval|]; [|done]. injection Hw as <- <-.
      unfold bind, set_param_val, ret, stored. simpl.
      eapply wp_conseq; [apply (IH (seen ++ [param m]))| | |done]; try done.
      * simpl. by rewrite Hcalls.
      * simpl. intros k [Hk|Hk]%elem_of_app; rewrite lookup_insert_is_Some.
        -- destruct (decide (param m = k)); [by left|right]. split; [done|by apply Hvals].
        -- apply list_elem_of_singleton in Hk. by left.
      * intros r s2 Hs2. simpl in Hs2. by rewrite Hs2, <-app_assoc.
      * intros e s2 [Hpre (m' & s3 & Hin & Hw')]. rewrite <-app_assoc in Hpre.
        split; [done|]. exists m', s3. split; [by right|done].
    + split; [|exists m, s; split; [left|done]].
      rewrite wrapper_unfold in Hw.
      pose proof (input_value_store cls_name kwargs m s) as Hst. unfold wp in Hst.
      destruct (input_value cls_name kwargs m s) as [val s0|e0 s0|]; [subst s0| |done].
      * destruct (f m (attrs s) val) as [retval|]; [done|]. injection Hw as <- <-.
        simpl. rewrite Hcalls. apply prefix_app, prefix_cons, prefix_nil.
      * injection Hw as <- <-. subst s0. rewrite Hcalls. by apply prefix_app_r.
Qed.

(** ** Where the exceptions come from *)

Section Causes.
Variable cls_name : string.
Variable methods : list (string * handler).
Variable kwargs : gmap string value.

Local Abbreviation cause := (failure_cause cls_name methods kwargs).

Lemma for_deps_cause rec deps : forall (chain : list string) s,
  chain <> [] ->
  (forall d, d ∈ deps -> dict_get d methods = None -> exists q d', dangling methods q d') ->
  (forall d c s',
     wp (rec d (dict_get d methods) c) s'
        (fun c' s2 => (c ++ [d]) `prefix_of` c' /\ is_Some (_param_vals s2 !! d))
        (fun e _ => cause e \/
                    (e = TypeError_NoneType_not_callable /\ dict_get d methods = None))
        True) ->
  wp (for_deps cls_name methods rec deps chain) s
     (fun _ _ => True) (fun e _ => cause e) True.
Proof.
  induction deps as [|d deps IH]; intros chain s Hne Hdang Hrec; simpl; [done|].
  case_bool_decide as Hin.
  - destruct chain as [|c0 chain]; [done|]. simpl.
    apply wp_bind, wp_ret, wp_raise. left. by eexists.
  - assert (forall d', d' ∈ deps -> dict_get d' methods = None ->
              exists q d'', dangling methods q d'') as Hdang'.
    { intros d' Hd'. apply Hdang. by right. }
    apply wp_bind. unfold wp at 1, not_in_param_vals. apply wp_bind.
    case_bool_decide as Hd.
    + eapply wp_conseq; [apply Hrec| | |done].
      * intros c' s' [Hpre [v Hv]]. simpl. apply wp_bind.
        unfold wp at 1, not_in_param_vals.
        rewrite bool_decide_eq_false_2 by congruence.
        apply IH; [|done..]. destruct Hpre as [k ->]. by destruct chain.
      * intros e s' [Hc|[-> Hnone]]; [done|].
        right. left. split; [done|]. apply (Hdang d); [left|done].
    + apply wp_ret, wp_bind. unfold wp at 1, not_in_param_vals.
      rewrite bool_decide_eq_false_2 by done. by apply IH.
Qed.

Lemma pp_cause fuel : forall p chain s,
  wp (_process_param cls_name methods kwargs fuel p (dict_get p methods) chain) s
     (fun _ _ => True)
     (fun e _ => cause e \/
                 (e = TypeError_NoneType_not_callable /\ dict_get p methods = None))
     True.
Proof.
  induction fuel as [|fuel IH]; intros p chain s; [done|].
  rewrite pp_unfold. apply wp_bind.
  eapply wp_conseq; [apply for_deps_cause| | |done].
  - by destruct (chain_arg chain).
  - intros d Hd Hnone. destruct (dict_get p methods) as [m|] eqn:Hm; simpl in Hd.
    + exists p, d, m. done.
    + by apply elem_of_nil in Hd.
  - intros d c s'.
    eapply wp_conseq; [apply wp_and; [apply (IH d (Some c) s')|apply pp_chain]| | |done].
    + by intros c' s2 [_ H].
    + by intros e s2 [H _].
  - intros c' s' _. simpl. apply wp_bind.
    destruct (dict_get p methods) as [m|] eqn:Hm; simpl.
    + unfold wp at 1. destruct (wrapper cls_name kwargs m s') as [r s2|e s2|] eqn:Hw;
        [|left; right; right; by exists p, m, s', s2|done].
      apply wp_bind. unfold wp at 1, set_param_val. done.
    + apply wp_raise. by right.
  - intros e s' H. by left.
Qed.

Lemma for_items_cause fuel items : forall s,
  (forall k m, (k, m) ∈ items -> dict_get k methods = Some m) ->
  wp (for_items cls_name methods kwargs fuel items) s
     (fun _ _ => True)
     (fun e _ => (forall r, e = CyclicalDependencyError r -> r ∈ dict_keys items) /\ cause e)
     True.
Proof.
  induction items as [|[k m] items IH]; intros s Hitems; simpl; [done|].
  apply wp_bind. unfold wp at 1.
  pose proof (pp_cause fuel k None s) as Hc. unfold wp in Hc.
  rewrite (Hitems k m) in Hc by left.
  destruct (_process_param _ _ _ _ _ _ _ s) as [c' s'|e s'|] eqn:Hrun; [| |done].
  - eapply wp_conseq; [apply IH| | |done]; try done.
    + intros k' m' Hin. apply Hitems. by right.
    + intros e s2 [Hr Hcause]. split; [|done]. intros r Hre. right. by apply Hr.
  - split.
    + intros r ->. apply pp_cyclical_root in Hrun as ->. left.
    + destruct Hc as [Hc|[_ [=]]]. done.
Qed.
End Causes.

Lemma wrapper_raise_inv (cls_name : string) (kwargs : gmap string value) m s e s' :
  wrapper cls_name kwargs m s = Raise e s' ->
  (e = RequiredParameterError cls_name (param m) /\
   kwargs !! param m = None /\ default m = None) \/
  (exists ty val, e = ParameterTypeError (param m) ty /\ ensure_type m = Some ty /\
                  kwargs !! param m = Some val /\ isinstance val ty = false) \/
  (exists msg val, e = HandlerError msg /\ f m (attrs s) val = Throw msg).
Proof.
  rewrite wrapper_unfold. unfold input_value.
  destruct (kwargs !! param m) as [val|] eqn:Hk.
  - destruct (ensure_type m) as [ty|] eqn:Hty;
      [destruct (isinstance val ty) eqn:Hi|]; simpl.
    + destruct (f m (attrs s) val) eqn:Hf; [done|]. intros [= <- <-]. right. right. eauto.
    + intros [= <- <-]. right. left. by exists ty, val.
    + destruct (f m (attrs s) val) eqn:Hf; [done|]. intros [= <- <-]. right. right. eauto.
  - destruct (default m) as [val|] eqn:Hd; simpl.
    + destruct (f m (attrs s) val) eqn:Hf; [done|]. intros [= <- <-]. right. right. eauto.
    + intros [= <- <-]. by left.
Qed.

(** ** What the loop of [__init__] went through *)

Lemma for_items_app (cls_name : string) (methods : list (string * handler))
    (kwargs : gmap string value) fuel items1 items2 s :
  for_items cls_name methods kwargs fuel (items1 ++ items2) s =
  bind (for_items cls_name methods kwargs fuel items1)
       (fun _ => for_items cls_name methods kwargs fuel items2) s.
Proof.
  revert s. induction items1 as [|[k m] items1 IH]; intros s; simpl; [done|].
  unfold bind. destruct (_process_param _ _ _ _ _ _ _ s) as [c' s'| |]; [|done..].
  rewrite IH. done.
Qed.

Section Steps.
Variable cls_name : string.
Variable methods : list (string * handler).
Variable kwargs : gmap string value.
Hypothesis keyed : forall k m, dict_get k methods = Some m -> param m = k.

Lemma for_items_consistent fuel items s :
  (forall k m, (k, m) ∈ items -> dict_get k methods = Some m) ->
  consistent methods s ->
  wp (for_items cls_name methods kwargs fuel items) s
     (fun _ s' => consistent methods s') (fun _ s' => consistent methods s') True.
Proof.
  intros Hitems. apply (for_items_keyed cls_name methods kwargs (consistent methods));
    [|done].
  intros p m s0 Hget Hs0 _. apply wrapper_consistent; [done|by apply keyed|done].
Qed.

(** In a loop that comes to its end, the top-level call of each item
    returned, in a consistent store between the start and the end. *)
Lemma for_items_each_ok fuel items q mq : forall s0 r s,
  (forall k m, (k, m) ∈ items -> dict_get k methods = Some m) ->
  consistent methods s0 ->
  (q, mq) ∈ items ->
  for_items cls_name methods kwargs fuel items s0 = Ok r s ->
  exists s1 c s2,
    consistent methods s1 /\ grows s0 s1 /\
    _process_param cls_name methods kwargs fuel q (Some mq) None s1 = Ok c s2 /\
    grows s2 s.
Proof.
  induction items as [|[k m] items IH]; intros s0 r s Hitems Hs0 Hin;
    [by apply elem_of_nil in Hin|].
  simpl. intros (c1 & s1 & Hpp & Hrest)%bind_ok.
  assert (forall k' m', (k', m') ∈ items -> dict_get k' methods = Some m') as Hitems'.
  { intros k' m' Hin'. apply Hitems. by right. }
  apply elem_of_cons in Hin as [[= <- <-]|Hin].
  - exists s0, c1, s1. split; [done|]. split; [apply grows_refl|]. split; [done|].
    pose proof (for_items_grows cls_name methods kwargs fuel items s1) as Hg.
    unfold wp in Hg. by rewrite Hrest in Hg.
  - assert (consistent methods s1 /\ grows s0 s1) as [Hs1 Hg1].
    { pose proof (pp_consistent cls_name methods kwargs keyed fuel k None s0 Hs0) as Hc.
      pose proof (pp_grows cls_name methods kwargs fuel k (Some m) None s0) as Hg.
      unfold wp in Hc, Hg. rewrite (Hitems k m) in Hc by left.
      by rewrite Hpp in Hc, Hg. }
    destruct (IH s1 r s Hitems' Hs1 Hin Hrest) as (sa & c & sb & Hsa & Hga & Hrun & Hgb).
    exists sa, c, sb. split; [done|]. split; [by apply (grows_trans s0 s1 sa)|done].
Qed.

(** A top-level call that returns has resolved the dependencies and then
    run the handler. *)
Lemma pp_ok_steps fuel p m chain s c s' :
  dict_get p methods = Some m ->
  consistent methods s ->
  _process_param cls_name methods kwargs fuel p (Some m) chain s = Ok c s' ->
  consistent methods s' /\
  _param_vals s' !! p = Some VNone /\
  (forall d, d ∈ depends_on m -> is_Some (_param_vals s' !! d) /\ d ∈ dict_keys methods) /\
  exists l, calls s' = l ++ [p] /\ calls s `prefix_of` l /\
            forall d, d ∈ depends_on m -> d ∈ l.
Proof.
  intros Hget Hs Hrun. pose proof (keyed _ _ Hget) as Hp.
  assert (consistent methods s') as Hs'.
  { pose proof (pp_consistent cls_name methods kwargs keyed fuel p chain s Hs) as Hc.
    unfold wp in Hc. by rewrite Hget, Hrun in Hc. }
  split; [done|]. destruct fuel as [|fuel]; [done|].
  rewrite pp_unfold in Hrun. apply bind_ok in Hrun as (c1 & s1 & Hdeps & Hrun).
  pose proof (for_deps_keyed cls_name methods (consistent methods)
                (fun d dm c => _process_param cls_name methods kwargs fuel d dm (Some c))
                (depends_on m) (chain_arg chain ++ [p]) s) as H1.
  pose proof (for_deps_resolved cls_name methods
                (fun d dm c => _process_param cls_name methods kwargs fuel d dm (Some c))
                (depends_on m) (chain_arg chain ++ [p]) s) as H2.
  simpl in Hdeps. unfold wp in H1, H2. rewrite Hdeps in H1, H2.
  assert (consistent methods s1) as Hs1.
  { apply H1; [|done]. intros d c0 s0 Hs0. by apply pp_consistent. }
  destruct H2 as [(_ & _ & Hpre) Hres].
  { intros d dm c0 s0.
    eapply wp_conseq; [apply pp_grows|done|by intros e s2 [H _]|done]. }
  apply bind_ok in Hrun as (r & s2 & Hw & Hrun). simpl in Hw.
  rewrite wrapper_unfold in Hw.
  pose proof (input_value_store cls_name kwargs m s1) as Hst. unfold wp in Hst.
  destruct (input_value cls_name kwargs m s1) as [val s0| |]; [subst s0|done..].
  destruct (f m (attrs s1) val) as [retval|]; [|done]. injection Hw as <- <-.
  apply bind_ok in Hrun as ([] & s3 & Hset & Hret).
  unfold set_param_val in Hset. injection Hset as <-. injection Hret as _ <-.
  simpl. rewrite Hp, lookup_insert_eq. split; [done|].
  destruct Hs1 as (Hva & Hac & Hck & _).
  split.
  - intros d Hd. split.
    + rewrite lookup_insert_is_Some. destruct (decide (p = d)); [by left|right].
      split; [done|by apply Hres].
    + by apply Hck, Hac, Hva, Hres.
  - exists (calls s1). split; [done|]. split; [done|].
    intros d Hd. by apply Hac, Hva, Hres.
Qed.
End Steps.

(** ** Counting the calls of a handler *)

Lemma count_filter_prefix (p : string) (l1 l2 : list string) :
  l1 `prefix_of` l2 ->
  (length (filter (fun q => String.eqb p q = true) l1)
   <= length (filter (fun q => String.eqb p q = true) l2))%nat.
Proof. intros [k ->]. rewrite filter_app, length_app. lia. Qed.

Lemma count_filter_elem (p : string) (l : list string) :
  p ∈ l -> (1 <= length (filter (fun q => String.eqb p q = true) l))%nat.
Proof.
  intros (l1 & l2 & ->)%list_elem_of_split.
  rewrite filter_app, filter_cons_True by apply String.eqb_refl.
  rewrite length_app. simpl. lia.
Qed.

Lemma count_filter_snoc (p : string) (l : list string) :
  length (filter (fun q => String.eqb p q = true) (l ++ [p]))
    = S (length (filter (fun q => String.eqb p q = true) l)).
Proof.
  rewrite filter_app, length_app.
  rewrite (filter_cons_True _ p []) by apply String.eqb_refl. simpl. lia.
Qed.

(** ** What [_get_param_methods] registers *)

Lemma _get_param_methods_snoc (cls : list handler) (m : handler) :
  _get_param_methods (cls ++ [m]) = dict_set (param m) m (_get_param_methods cls).
Proof. unfold _get_param_methods. by rewrite fold_left_app. Qed.

Lemma declares_last (cls : list handler) (p : string) (m : handler) :
  declares cls p m <-> last (filter (fun h => param h = p) cls) = Some m.
Proof.
  unfold declares. induction cls as [|h cls IH] using rev_ind; [done|].
  rewrite _get_param_methods_snoc, filter_app.
  destruct (decide (param h = p)) as [Heq|Hne].
  - rewrite (filter_cons_True _ h []) by done. rewrite filter_nil, last_snoc.
    by rewrite <-Heq, dict_get_set_eq.
  - rewrite (filter_cons_False _ h []) by done. rewrite filter_nil, app_nil_r.
    by rewrite dict_get_set_ne.
Qed.

Lemma _get_param_methods_keys (cls : list handler) (p : string) :
  p ∈ dict_keys (_get_param_methods cls) <-> exists h, h ∈ cls /\ param h = p.
Proof.
  split.
  - intros [m Hm]%dict_key_get. apply dict_get_Some_elem in Hm.
    exists m. by apply _get_param_methods_elem.
  - intros (h & Hin & Hp).
    destruct (last (filter (fun h => param h = p) cls)) as [m|] eqn:Hlast.
    + apply declares_last in Hlast. by apply dict_get_Some_key in Hlast.
    + apply last_None in Hlast.
      assert (h ∈ filter (fun h => param h = p) cls) as Hf by by apply list_elem_of_filter.
      rewrite Hlast in Hf. by apply elem_of_nil in Hf.
Qed.

(** ** Further properties of the code *)

(** X1: [load_config] never fails on [parts[0]]: it computes a module name
    that contains neither a dot nor a slash, returns [None] without loading
    anything when the absolute path does not exist, and otherwise loads the
    file at that path under that name. *)
Theorem X1_load_config_module_name (Mod : Type) (fs : filesystem Mod) (filename : string) :
  exists modname,
    modname_of filename = inr modname /\
    has_char "."%char modname = false /\
    has_char "/"%char modname = false /\
    load_config fs filename =
      inr (if path_exists fs (abspath fs filename)
           then Some (load_source fs modname (abspath fs filename))
           else None).
Proof.
  unfold load_config, modname_of.
  destruct (split_cons_part "."%char (basename filename)) as (part & parts & -> & Hdot & Hsub).
  exists part. split; [done|]. split; [done|]. split; [|by destruct (path_exists _ _)].
  apply Hsub, basename_no_slash.
Qed.

(** X2: for a file [name.ext], in a directory or not, the module name is
    [name], provided [name] has no dot and neither [name] nor [ext] a
    slash; a file name without a dot is its own module name. *)
Theorem X2_load_config_name_of_path (dir name ext : string) :
  has_char "/"%char name = false ->
  has_char "."%char name = false ->
  has_char "/"%char ext = false ->
  modname_of (dir ++ String "/"%char (name ++ String "."%char ext)) = inr name /\
  modname_of (name ++ String "."%char ext) = inr name /\
  modname_of (dir ++ String "/"%char name) = inr name /\
  modname_of name = inr name.
Proof.
  intros Hslash Hdot Hext. unfold modname_of.
  assert (has_char "/"%char (name ++ String "."%char ext) = false) as Hfile.
  { rewrite has_char_app, Hslash. simpl. by rewrite Hext. }
  rewrite !basename_app, !basename_plain by done.
  by rewrite split_app, split_plain by done.
Qed.

Lemma X2_witness :
  (has_char "/"%char "settings" = false /\ has_char "."%char "settings" = false /\
   has_char "/"%char "py" = false) /\
  modname_of "conf/prod/settings.py" = inr "settings".
Proof.
  split; [done|].
  apply (X2_load_config_name_of_path "conf/prod" "settings" "py"); reflexivity.
Defined.

(** X3: a file whose name starts with a dot, and a path that ends with a
    slash, get the empty module name. *)
Theorem X3_load_config_hidden_file (dir rest : string) :
  has_char "/"%char rest = false ->
  modname_of (dir ++ String "/"%char (String "."%char rest)) = inr "" /\
  modname_of (String "."%char rest) = inr "" /\
  modname_of (dir ++ String "/"%char "") = inr "".
Proof.
  intros Hrest. unfold modname_of.
  assert (has_char "/"%char (String "."%char rest) = false) as Hfile by done.
  by rewrite !basename_app, basename_plain by done.
Qed.

Lemma X3_witness :
  has_char "/"%char "profile.py" = false /\
  modname_of "home/.profile.py" = inr "".
Proof.
  split; [done|]. apply (X3_load_config_hidden_file "home" "profile.py"). reflexivity.
Defined.

(** X4: [_get_param_methods] keeps one entry per parameter name: the name
    is registered exactly when some handler of the class bears it, and its
    entry is the last such handler in the order of [dir]. *)
Theorem X4_get_param_methods_last_wins (cls : list handler) (p : string) :
  NoDup (dict_keys (_get_param_methods cls)) /\
  (p ∈ dict_keys (_get_param_methods cls) <-> exists h, h ∈ cls /\ param h = p) /\
  (forall m, dict_get p (_get_param_methods cls) = Some m <->
             last (filter (fun h => param h = p) cls) = Some m).
Proof.
  split; [apply _get_param_methods_spec|]. split; [apply _get_param_methods_keys|].
  intros m. apply declares_last.
Qed.

(** X5: the recursion of [_process_param] is never deeper than the number
    of registered parameters plus one: with that call depth [__init__]
    returns or raises, and any larger depth gives the same result. *)
Theorem X5_recursion_bounded (cls_name : string) (cls : list handler)
    (kwargs : gmap string value) (fuel : nat) :
  (length (_get_param_methods cls) < fuel)%nat ->
  for_items cls_name (_get_param_methods cls) kwargs fuel (_get_param_methods cls) new_store
    = __init__ cls_name cls kwargs /\
  __init__ cls_name cls kwargs <> Diverge.
Proof.
  intros Hfuel. split; [by apply fuel_irrelevant|apply fuel_enough].
Qed.

Lemma X5_witness :
  let cls := [Examples.d; Examples.b; Examples.c; Examples.a] in
  (length (_get_param_methods cls) < 9)%nat /\
  for_items "Diamond" (_get_param_methods cls) Examples.abcd 9 (_get_param_methods cls)
    new_store = __init__ "Diamond" cls Examples.abcd.
Proof.
  intros cls. assert (length (_get_param_methods cls) < 9)%nat as H by (simpl; lia).
  split; [done|]. apply (X5_recursion_bounded "Diamond" cls Examples.abcd 9 H).
Defined.

(** X6: however a construction ends, every entry of [_param_vals] is
    [None] (the [wrapper] returns nothing), every name with an entry is an
    attribute of the object, every attribute was set by a handler that ran,
    and the handlers that ran are registered ones. *)
Theorem X6_self_stays_consistent (cls_name : string) (cls : list handler)
    (kwargs : gmap string value) (s : store) :
  final_store (__init__ cls_name cls kwargs) = Some s ->
  (forall k v, _param_vals s !! k = Some v -> v = VNone) /\
  (forall k, is_Some (_param_vals s !! k) -> is_Some (attrs s !! k)) /\
  (forall k, is_Some (attrs s !! k) -> k ∈ calls s) /\
  (forall k, k ∈ calls s -> k ∈ dict_keys (_get_param_methods cls)).
Proof.
  intros Hfinal.
  destruct (init_consistent cls_name cls kwargs s Hfinal) as (H1 & H2 & H3 & H4). auto.
Qed.

Lemma X6_witness :
  exists s,
    final_store (__init__ "Diamond" [Examples.d; Examples.b; Examples.c; Examples.a]
                   Examples.abcd) = Some s /\
    forall k v, _param_vals s !! k = Some v -> v = VNone.
Proof.
  eexists. split; [vm_compute; reflexivity|].
  apply (X6_self_stays_consistent "Diamond" [Examples.d; Examples.b; Examples.c; Examples.a]
           Examples.abcd). vm_compute. reflexivity.
Defined.

(** X7: after a construction that succeeds, the attributes of the object
    are exactly the registered parameter names, each has the entry [None]
    in [_param_vals], and the handler of each has run. *)
Theorem X7_success_resolves_everything (cls_name : string) (cls : list handler)
    (kwargs : gmap string value) (r : unit) (s : store) :
  __init__ cls_name cls kwargs = Ok r s ->
  forall k,
    (k ∈ dict_keys (_get_param_methods cls) <-> is_Some (attrs s !! k)) /\
    (k ∈ dict_keys (_get_param_methods cls) <-> _param_vals s !! k = Some VNone) /\
    (k ∈ dict_keys (_get_param_methods cls) <-> k ∈ calls s).
Proof.
  intros Hrun k.
  assert (final_store (__init__ cls_name cls kwargs) = Some s) as Hfinal by by rewrite Hrun.
  destruct (init_consistent cls_name cls kwargs s Hfinal) as (Hva & Hac & Hck & Hnone).
  destruct (_get_param_methods_spec cls) as [Hkeyed Hnd].
  assert (k ∈ dict_keys (_get_param_methods cls) -> _param_vals s !! k = Some VNone) as Hall.
  { intros [m Hm]%dict_key_get. unfold __init__ in Hrun.
    destruct (for_items_each_ok cls_name (_get_param_methods cls) kwargs
                (fun k0 m0 H => Hkeyed k0 m0 (dict_get_Some_elem _ _ _ H))
                (S (length (_get_param_methods cls))) (_get_param_methods cls)
                k m new_store r s) as (s1 & c & s2 & Hs1 & _ & Hpp & (Hg & _));
      [by intros k0 m0 Hin; apply dict_elem_get|apply consistent_new
      |by apply dict_get_Some_elem|done|].
    destruct (pp_ok_steps cls_name (_get_param_methods cls) kwargs
                (fun k0 m0 H => Hkeyed k0 m0 (dict_get_Some_elem _ _ _ H))
                (S (length (_get_param_methods cls))) k m None s1 c s2 Hm Hs1 Hpp)
      as (_ & Hv & _).
    destruct (Hg k) as [v Hv']; [by eexists|]. by rewrite Hv', (Hnone k v Hv'). }
  assert (is_Some (_param_vals s !! k) -> k ∈ dict_keys (_get_param_methods cls)) as Hback.
  { intros Hk. by apply Hck, Hac, Hva. }
  split; [|split]; split; intros H.
  - apply Hva. rewrite (Hall H). by eexists.
  - by apply Hck, Hac.
  - by apply Hall.
  - apply Hback. rewrite H. by eexists.
  - apply Hac, Hva. rewrite (Hall H). by eexists.
  - by apply Hck.
Qed.

Lemma X7_witness :
  exists s,
    __init__ "Person" [Examples.age; Examples.can_vote; Examples.first_name] Examples.kid
      = Ok tt s /\
    ("can_vote" ∈ dict_keys (_get_param_methods
                               [Examples.age; Examples.can_vote; Examples.first_name])
     <-> _param_vals s !! "can_vote" = Some VNone).
Proof.
  eexists. split; [vm_compute; reflexivity|].
  apply (X7_success_resolves_everything "Person"
           [Examples.age; Examples.can_vote; Examples.first_name] Examples.kid tt).
  vm_compute. reflexivity.
Defined.

(** X8: a handler always finds the attributes of its dependencies.  When
    every handler body is made to raise unless each of its declared
    dependencies is an attribute of [self], construction is unchanged:
    same outcome, same exception, same store. *)
Theorem X8_handler_finds_dependencies (cls_name : string) (cls : list handler)
    (kwargs : gmap string value) :
  __init__ cls_name (map guard cls) kwargs = __init__ cls_name cls kwargs.
Proof.
  unfold __init__. rewrite _get_param_methods_guard, length_map.
  destruct (_get_param_methods_spec cls) as [Hkeyed Hnd].
  apply for_items_guard.
  - intros k m Hget. by apply Hkeyed, dict_get_Some_elem.
  - intros k m Hin. by apply dict_elem_get.
  - apply consistent_new.
Qed.

(** X9: when the handlers are registered under distinct names, each after
    the ones it depends on, every handler is called at most once, in that
    order, and exactly once when construction succeeds; construction can
    only fail with what the [wrapper] of a handler raises, never with
    [CyclicalDependencyError] or the [TypeError] of a missing handler. *)
Theorem X9_dependency_order_runs_once (cls_name : string) (cls : list handler)
    (kwargs : gmap string value) :
  dependency_ordered [] cls = true ->
  (forall r s, __init__ cls_name cls kwargs = Ok r s -> calls s = map param cls) /\
  (forall e s, __init__ cls_name cls kwargs = Raise e s ->
     calls s `prefix_of` map param cls /\
     (exists m s1, m ∈ cls /\ wrapper cls_name kwargs m s1 = Raise e s) /\
     (forall r, e <> CyclicalDependencyError r) /\
     e <> TypeError_NoneType_not_callable).
Proof.
  intros Hord. destruct (dependency_ordered_NoDup cls [] Hord) as [Hnd _].
  pose proof (for_items_ordered cls_name (_get_param_methods cls) kwargs
                (length (_get_param_methods cls)) cls [] new_store Hord eq_refl) as H.
  pose proof (_get_param_methods_distinct cls Hnd) as Hitems.
  unfold __init__. set (methods := _get_param_methods cls) in *.
  rewrite <-Hitems in H. unfold wp in H. simpl in H.
  destruct (for_items _ _ _ _ _ new_store) as [r0 s0|e0 s0|]; split; intros; try done.
  - injection H0 as _ <-. apply H. intros k Hk. by apply elem_of_nil in Hk.
  - injection H0 as <- <-.
    destruct H as [Hpre (m & s1 & Hin & Hw)];
      [by intros k Hk; apply elem_of_nil in Hk|].
    split; [done|]. split; [by exists m, s1|].
    pose proof (wrapper_raises _ _ _ _ _ _ Hw) as [[ty ->]|[->|[msg ->]]]; by split.
Qed.

Lemma X9_witness :
  let cls := [Examples.a; Examples.b; Examples.c; Examples.d] in
  dependency_ordered [] cls = true /\
  forall r s, __init__ "Diamond" cls Examples.abcd = Ok r s -> calls s = ["a"; "b"; "c"; "d"].
Proof.
  intros cls. split; [reflexivity|].
  apply (X9_dependency_order_runs_once "Diamond" cls Examples.abcd). reflexivity.
Defined.

(** X10: the exceptions that the resolver itself raises have their cause
    in the class or the arguments.  A construction that raises ends either
    with whatever the body of a registered handler raised ([HandlerError],
    of whatever Python class), or, the interpreter's recursion limit
    apart, with one of the resolver's own exceptions: its [CyclicalDependencyError] names a registered parameter;
    the [TypeError] of calling [None] (line 162) means some registered
    parameter depends on a name without handler; its
    [RequiredParameterError] comes from [wrapper] (line 180), never from
    line 160, and names the class and a registered parameter that is
    omitted and has no default; its [ParameterTypeError] names a registered
    parameter, its type constraint, and a supplied value that is not an
    instance. *)
Theorem X10_failure_causes (cls_name : string) (cls : list handler)
    (kwargs : gmap string value) (e : exn) (s : store) :
  __init__ cls_name cls kwargs = Raise e s ->
  (exists r m, e = CyclicalDependencyError r /\ declares cls r m) \/
  (e = TypeError_NoneType_not_callable /\
   exists q d, dangling (_get_param_methods cls) q d) \/
  (exists p m,
     declares cls p m /\
     ((e = RequiredParameterError cls_name p /\ kwargs !! p = None /\ default m = None) \/
      (exists ty val, e = ParameterTypeError p ty /\ ensure_type m = Some ty /\
                      kwargs !! p = Some val /\ isinstance val ty = false) \/
      (exists msg self val, e = HandlerError msg /\ f m self val = Throw msg))).
Proof.
  intros Hrun. destruct (_get_param_methods_spec cls) as [Hkeyed Hnd].
  pose proof (for_items_cause cls_name (_get_param_methods cls) kwargs
                (S (length (_get_param_methods cls))) (_get_param_methods cls) new_store)
    as H.
  unfold __init__ in Hrun. unfold wp in H. rewrite Hrun in H.
  destruct H as [Hroot [[r ->]|[Hdang|(q & m & s1 & s2 & Hget & Hw)]]].
  - intros k m Hin. by apply dict_elem_get.
  - left. destruct (dict_key_get r (_get_param_methods cls) (Hroot r eq_refl)) as [m Hm].
    by exists r, m.
  - right. by left.
  - right. right. exists q, m. split; [done|].
    pose proof (Hkeyed _ _ (dict_get_Some_elem _ _ _ Hget)) as Hp.
    apply wrapper_raise_inv in Hw. rewrite Hp in Hw.
    destruct Hw as [H|[H|(msg & val & -> & Hf)]]; [by left|by right; left|].
    right. right. by exists msg, (attrs s1), val.
Qed.

Lemma X10_witness :
  let cls := [Examples.typed_a; Examples.plain_b] in
  let kwargs : gmap string value := {["a" := VStr "one"]} in
  __init__ "Pair" cls kwargs = Raise (ParameterTypeError "a" TInt) new_store /\
  ((exists r m, ParameterTypeError "a" TInt = CyclicalDependencyError r /\ declares cls r m) \/
   (ParameterTypeError "a" TInt = TypeError_NoneType_not_callable /\
    exists q d, dangling (_get_param_methods cls) q d) \/
   (exists p m,
      declares cls p m /\
      ((ParameterTypeError "a" TInt = RequiredParameterError "Pair" p /\
        kwargs !! p = None /\ default m = None) \/
       (exists ty val, ParameterTypeError "a" TInt = ParameterTypeError p ty /\
                       ensure_type m = Some ty /\
                       kwargs !! p = Some val /\ isinstance val ty = false) \/
       (exists msg self val, ParameterTypeError "a" TInt = HandlerError msg /\
                             f m self val = Throw msg)))).
Proof.
  intros cls kwargs.
  assert (__init__ "Pair" cls kwargs = Raise (ParameterTypeError "a" TInt) new_store) as H
    by (vm_compute; reflexivity).
  split; [done|].
  apply (X10_failure_causes "Pair" cls kwargs (ParameterTypeError "a" TInt) new_store H).
Defined.

(** X11: a class in which a registered parameter depends on a name without
    handler never constructs, whatever the arguments: [__init__] raises. *)
Theorem X11_dangling_dependency_never_constructs (cls_name : string) (cls : list handler)
    (kwargs : gmap string value) (q d : string) :
  dangling (_get_param_methods cls) q d ->
  exists e s, __init__ cls_name cls kwargs = Raise e s.
Proof.
  intros (m & Hget & Hd & Hnone). destruct (_get_param_methods_spec cls) as [Hkeyed Hnd].
  pose proof (fuel_enough cls_name cls kwargs) as Hfuel.
  destruct (__init__ cls_name cls kwargs) as [r s|e s|] eqn:Hrun; [|by eauto|done].
  exfalso. unfold __init__ in Hrun.
  destruct (for_items_each_ok cls_name (_get_param_methods cls) kwargs
              (fun k0 m0 H => Hkeyed k0 m0 (dict_get_Some_elem _ _ _ H))
              (S (length (_get_param_methods cls))) (_get_param_methods cls)
              q m new_store r s) as (s1 & c & s2 & Hs1 & _ & Hpp & _);
    [by intros k0 m0 Hin; apply dict_elem_get|apply consistent_new
    |by apply dict_get_Some_elem|done|].
  destruct (pp_ok_steps cls_name (_get_param_methods cls) kwargs
              (fun k0 m0 H => Hkeyed k0 m0 (dict_get_Some_elem _ _ _ H))
              (S (length (_get_param_methods cls))) q m None s1 c s2 Hget Hs1 Hpp)
    as (_ & _ & Hdeps & _).
  destruct (Hdeps d Hd) as [_ Hkey]. apply dict_key_get in Hkey as [m' Hm'].
  congruence.
Qed.

Lemma X11_witness :
  dangling (_get_param_methods [Examples.a; Examples.p_needs_q]) "p" "q" /\
  exists e s, __init__ "Config" [Examples.a; Examples.p_needs_q] Examples.abcd = Raise e s.
Proof.
  assert (dangling (_get_param_methods [Examples.a; Examples.p_needs_q]) "p" "q") as H.
  { exists Examples.p_needs_q. repeat split. left. }
  split; [done|].
  apply (X11_dangling_dependency_never_constructs "Config"
           [Examples.a; Examples.p_needs_q] Examples.abcd "p" "q" H).
Defined.

(** X12: when a parameter [q] is registered before a parameter [p] it
    depends on, a construction that succeeds has run the handler of [p] at
    least twice: for [q], and again when the loop of [__init__] comes to
    [p]. *)
Theorem X12_dependency_registered_later_runs_twice (cls_name : string)
    (cls : list handler) (kwargs : gmap string value)
    (q p : string) (mq mp : handler) (before after : list (string * handler))
    (r : unit) (s : store) :
  _get_param_methods cls = before ++ (p, mp) :: after ->
  (q, mq) ∈ before ->
  p ∈ depends_on mq ->
  __init__ cls_name cls kwargs = Ok r s ->
  (2 <= count_calls p s)%nat.
Proof.
  intros Hm Hq Hdep Hrun. destruct (_get_param_methods_spec cls) as [Hkeyed Hnd].
  assert (forall k m, dict_get k (_get_param_methods cls) = Some m -> param m = k) as Hk.
  { intros k m H. by apply Hkeyed, dict_get_Some_elem. }
  assert (forall k m, (k, m) ∈ _get_param_methods cls ->
            dict_get k (_get_param_methods cls) = Some m) as Hitems.
  { intros k m Hin. by apply dict_elem_get. }
  unfold __init__ in Hrun. set (methods := _get_param_methods cls) in *.
  set (fuel := S (length methods)) in *.
  assert (forall k m, (k, m) ∈ before -> dict_get k methods = Some m) as Hbefore.
  { intros k m Hin. apply Hitems. rewrite Hm. apply elem_of_app. by left. }
  assert (dict_get p methods = Some mp) as Hp.
  { apply Hitems. rewrite Hm. apply elem_of_app. right. left. }
  assert (for_items cls_name methods kwargs fuel (before ++ (p, mp) :: after) new_store
          = Ok r s) as Hrun' by by rewrite <-Hm.
  rewrite for_items_app in Hrun'. apply bind_ok in Hrun' as ([] & s1 & Hpre & Hrest).
  simpl in Hrest. apply bind_ok in Hrest as (c & s2 & Hpp & Hpost).
  destruct (for_items_each_ok cls_name methods kwargs Hk fuel before q mq
              new_store tt s1 Hbefore (consistent_new methods) Hq Hpre)
    as (sa & ca & sb & Hsa & _ & Hppq & (_ & _ & Hgb)).
  destruct (pp_ok_steps cls_name methods kwargs Hk fuel q mq None sa ca sb
              (Hbefore q mq Hq) Hsa Hppq) as (_ & _ & _ & l & Hl & _ & Hdeps).
  assert (p ∈ calls s1) as Hp1.
  { destruct Hgb as [k ->]. rewrite Hl. apply elem_of_app. left.
    apply elem_of_app. left. by apply Hdeps. }
  assert (consistent methods s1) as Hs1.
  { pose proof (for_items_consistent cls_name methods kwargs Hk fuel before new_store
                  Hbefore (consistent_new methods)) as H.
    unfold wp in H. by rewrite Hpre in H. }
  destruct (pp_ok_steps cls_name methods kwargs Hk fuel p mp None s1 c s2 Hp Hs1 Hpp)
    as (_ & _ & _ & l2 & Hl2 & Hpre2 & _).
  pose proof (for_items_grows cls_name methods kwargs fuel after s2) as Hg.
  unfold wp in Hg. rewrite Hpost in Hg. destruct Hg as (_ & _ & Hg).
  unfold count_calls.
  pose proof (count_filter_prefix p _ _ Hg) as H1. rewrite Hl2, count_filter_snoc in H1.
  pose proof (count_filter_prefix p _ _ Hpre2) as H2.
  pose proof (count_filter_elem p _ Hp1) as H3. lia.
Qed.

Lemma X12_witness :
  let cls := [Examples.a_needs_b; Examples.plain_b] in
  (_get_param_methods cls = [("a", Examples.a_needs_b)] ++ ("b", Examples.plain_b) :: [] /\
   ("a", Examples.a_needs_b) ∈ [("a", Examples.a_needs_b)] /\
   "b" ∈ depends_on Examples.a_needs_b) /\
  exists s, __init__ "Pair" cls Examples.abcd = Ok tt s /\ (2 <= count_calls "b" s)%nat.
Proof.
  intros cls.
  assert (("a", Examples.a_needs_b) ∈ [("a", Examples.a_needs_b)]) as H1 by left.
  assert ("b" ∈ depends_on Examples.a_needs_b) as H2 by left.
  split; [done|]. eexists. split; [vm_compute; reflexivity|].
  apply (X12_dependency_registered_later_runs_twice "Pair" cls Examples.abcd
           "a" "b" Examples.a_needs_b Examples.plain_b [("a", Examples.a_needs_b)] [] tt
           _ eq_refl H1 H2).
  vm_compute. reflexivity.
Defined.

(** X14: pass-through parameters.  When the body of the handler of a
    registered parameter is [pass] (it returns [None]), a construction that
    succeeds leaves the raw value as the attribute: the supplied argument,
    or the default when the argument is omitted. *)
Theorem X14_pass_through (cls_name : string) (cls : list handler)
    (kwargs : gmap string value) (p : string) (m : handler) (raw : value)
    (r : unit) (s : store) :
  declares cls p m ->
  (forall self val, f m self val = Return VNone) ->
  kwargs !! p = Some raw \/ (kwargs !! p = None /\ default m = Some raw) ->
  __init__ cls_name cls kwargs = Ok r s ->
  attrs s !! p = Some raw.
Proof.
  intros Hdecl Hpass Hraw Hrun. pose proof (declares_param _ _ _ Hdecl) as Hp.
  destruct (init_ok_resolved _ _ _ _ _ _ _ Hrun Hdecl) as [[v Hv] _].
  rewrite Hv. f_equal. revert v Hv.
  apply (init_keyed cls_name cls kwargs
           (fun s => forall v, attrs s !! p = Some v -> v = raw)); [| |by rewrite Hrun].
  - intros p0 m0 s0 Hdecl0 Hs0 _. pose proof (declares_param _ _ _ Hdecl0) as Hp0.
    unfold wp. rewrite wrapper_unfold.
    pose proof (input_value_store cls_name kwargs m0 s0) as Hst. unfold wp in Hst.
    destruct (input_value cls_name kwargs m0 s0) as [val0 s1|e s1|] eqn:Hin;
      [subst s1|by subst s1|done].
    destruct (f m0 (attrs s0) val0) as [retval|] eqn:Hf; [|done].
    unfold stored. simpl. intros v. rewrite Hp0.
    destruct (decide (p0 = p)) as [->|Hne]; [|by rewrite lookup_insert_ne; auto].
    rewrite lookup_insert_eq. intros [= <-].
    unfold declares in *. assert (m0 = m) as -> by congruence.
    rewrite Hpass in Hf. injection Hf as <-. unfold py_or. simpl.
    destruct Hraw as [Hk|[Hk Hd]].
    + rewrite (input_value_supplied _ _ _ raw) in Hin by by rewrite Hp.
      destruct (ensure_type m) as [ty|]; [destruct (isinstance raw ty)|]; congruence.
    + rewrite input_value_omitted in Hin by by rewrite Hp. rewrite Hd in Hin. congruence.
  - intros v. unfold new_store. simpl. by rewrite lookup_empty.
Qed.

Lemma X14_witness :
  let cls := [Examples.age; Examples.can_vote; Examples.first_name] in
  (declares cls "first_name" Examples.first_name /\
   (forall self val, f Examples.first_name self val = Return VNone) /\
   Examples.kid !! "first_name" = Some (VStr "Kid")) /\
  exists s,
    __init__ "Person" cls Examples.kid = Ok tt s /\
    attrs s !! "first_name" = Some (VStr "Kid").
Proof.
  intros cls. split; [done|]. eexists. split; [vm_compute; reflexivity|].
  apply (X14_pass_through "Person" cls Examples.kid "first_name" Examples.first_name
           (VStr "Kid") tt _ eq_refl (fun _ _ => eq_refl) (or_introl eq_refl)).
  vm_compute. reflexivity.
Defined.
